(** * Personalized outreach generator: embedding and verified properties

    A shallow embedding of [personalized_Outreach_Generator.py]: the
    fixed-format response parser, the email body composer, the cost
    estimate in IEEE binary64 arithmetic, and the CSV-to-CSV main loop as
    a state-and-exception monad over a trace of observable events. *)

From Stdlib Require Import ZArith NArith List Bool Ascii String Lia.
From Stdlib Require Import Floats.SpecFloat.
From stdpp Require Import base option list gmap strings pretty.

#[local] Set Warnings "-clear-no-such-hyp".

Open Scope string_scope.
Open Scope N_scope.
Open Scope list_scope.

(** ** Python strings

    A Python [str] is a sequence of Unicode code points. *)

Abbreviation codepoint := N (only parsing).
Abbreviation str := (list N) (only parsing).

(** ASCII literals of the source are written as Rocq strings. *)
Fixpoint lit (x : string) : str :=
  match x with
  | EmptyString => []
  | String a x' => N_of_ascii a :: lit x'
  end.

(** [str.isspace] on one code point: the white-space table of CPython's
    Unicode database. *)
Definition is_space (c : codepoint) : bool :=
  ((9 <=? c) && (c <=? 13)) || ((28 <=? c) && (c <=? 32))
  || (c =? 133) || (c =? 160) || (c =? 5760)
  || ((8192 <=? c) && (c <=? 8202))
  || (c =? 8232) || (c =? 8233) || (c =? 8239) || (c =? 8287) || (c =? 12288).

(** Line boundaries recognised by [str.splitlines]. *)
Definition is_linebreak (c : codepoint) : bool :=
  ((10 <=? c) && (c <=? 13)) || ((28 <=? c) && (c <=? 30))
  || (c =? 133) || (c =? 8232) || (c =? 8233).

Fixpoint lstrip (l : str) : str :=
  match l with
  | [] => []
  | c :: l' => if is_space c then lstrip l' else l
  end.

Definition rstrip (l : str) : str := rev (lstrip (rev l)).

(** [l.strip()] *)
Definition strip (l : str) : str := rstrip (lstrip l).

(** [text.splitlines()]: [cur] is the line being read.  A carriage return
    followed by a line feed is one boundary; a final boundary opens no
    empty last line. *)
Fixpoint splitlines_from (cur : str) (t : str) : list str :=
  match t with
  | [] => match cur with [] => [] | _ => [cur] end
  | c :: t' =>
      if c =? 13 then
        match t' with
        | c2 :: t'' =>
            if c2 =? 10 then cur :: splitlines_from [] t''
            else cur :: splitlines_from [] t'
        | [] => [cur]
        end
      else if is_linebreak c then cur :: splitlines_from [] t'
      else splitlines_from (cur ++ [c]) t'
  end.

Definition splitlines (t : str) : list str := splitlines_from [] t.

(** [l.lower()].  The model is exact on ASCII and on the two code points
    whose lower-case form begins with an ASCII letter (U+0130, which
    becomes "i" followed by U+0307, and U+212A, which becomes "k").  Every
    other code point above 127 has a lower-case form that begins outside
    ASCII; it stands for itself here.  The program only ever asks whether
    the result starts with an ASCII literal, which this cannot change. *)
Definition lower_char (c : codepoint) : str :=
  if (65 <=? c) && (c <=? 90) then [c + 32]
  else if c =? 304 then [105; 775]
  else if c =? 8490 then [107]
  else [c].

Definition lower (l : str) : str := flat_map lower_char l.

(** [l.startswith(p)] *)
Fixpoint startswith (p l : str) : bool :=
  match p, l with
  | [], _ => true
  | _ :: _, [] => false
  | a :: p', b :: l' => (a =? b) && startswith p' l'
  end.

(** [sep.join(parts)] *)
Fixpoint join (sep : str) (parts : list str) : str :=
  match parts with
  | [] => []
  | [x] => x
  | x :: rest => x ++ sep ++ join sep rest
  end.

(** Truth value of a string: empty is false. *)
Definition truthy (l : str) : bool :=
  match l with [] => false | _ => true end.

(** ** Exceptions *)

Inductive exn : Type :=
  | IndexError
  | AttributeError
  | OverflowError
  | ValueError
  | UnicodeEncodeError
  | SystemExit (msg : str)
  | ServiceError (code : N).

Inductive result (A : Type) : Type :=
  | Ok (a : A)
  | Raise (e : exn).
Arguments Ok {A} a.
Arguments Raise {A} e.

#[global] Instance result_ret : MRet result := fun A a => Ok a.
#[global] Instance result_bind : MBind result := fun A B k r =>
  match r with
  | Ok a => k a
  | Raise e => Raise e
  end.

(** [seq[i]] on a list *)
Definition index {A} (l : list A) (i : nat) : result A :=
  match l !! i with
  | Some x => Ok x
  | None => Raise IndexError
  end.

(** [l.split(":", 1)]: at most one split, at the first colon. *)
Fixpoint split_colon_1 (l : str) : list str :=
  match l with
  | [] => [[]]
  | c :: l' =>
      if c =? 58 then [[]; l']
      else match split_colon_1 l' with
           | h :: rest => (c :: h) :: rest
           | [] => [[c]]
           end
  end.

(** ** The response parser *)

Module Parser.

(** The loop variables of [parse_output]. *)
Record pstate : Type := PState {
  out : gmap string (list N);
  bullets : list (list N);
  section : option string
}.

Definition out_init : gmap string (list N) :=
  <["cta" := []]> (<["bullet3" := []]> (<["bullet2" := []]>
  (<["bullet1" := []]> (<["opener" := []]> (<["subject" := []]> ∅))))).

Definition init : pstate := PState out_init [] None.

(** [l.split(":",1)[1].strip()] *)
Definition value_after_colon (l : str) : result str :=
  (v ← index (split_colon_1 l) 1; Ok (strip v)).

(** One iteration of the scanning loop. *)
Definition step (st : pstate) (l : str) : result pstate :=
  let low := lower l in
  if startswith (lit "subject:") low then
    (v ← value_after_colon l;
     Ok (PState (<["subject" := v]> (out st)) (bullets st) None))
  else if startswith (lit "opener:") low then
    (v ← value_after_colon l;
     Ok (PState (<["opener" := v]> (out st)) (bullets st) None))
  else if startswith (lit "bullets:") low then
    Ok (PState (out st) (bullets st) (Some "bullets"))
  else if startswith (lit "-") l && bool_decide (section st = Some "bullets") then
    Ok (PState (out st) (bullets st ++ [strip (drop 1 l)]) (section st))
  else if startswith (lit "cta:") low then
    (v ← value_after_colon l;
     Ok (PState (<["cta" := v]> (out st)) (bullets st) None))
  else Ok st.

Fixpoint scan (st : pstate) (lines : list str) : result pstate :=
  match lines with
  | [] => Ok st
  | l :: rest => (st' ← step st l; scan st' rest)
  end.

(** [[l.strip() for l in raw if l.strip()]] *)
Definition clean (raw : list str) : list str :=
  map strip (filter (fun l => truthy (strip l) = true) raw).

(** [lines] of [parse_output]: the comprehension over [text.splitlines()]. *)
Definition clean_lines (text : str) : list str := clean (splitlines text).

(** [f"bullet{i+1}"] *)
Definition bullet_key (i : nat) : string := "bullet" +:+ pretty (i + 1)%nat.

(** The closing [for i in range(3)] loop. *)
Fixpoint fill_bullets (bs : list str) (idxs : list nat)
    (o : gmap string (list N)) : result (gmap string (list N)) :=
  match idxs with
  | [] => Ok o
  | i :: rest =>
      (b ← (if bool_decide (i < length bs)%nat then index bs i else Ok []);
       fill_bullets bs rest (<[bullet_key i := b]> o))
  end.

Definition parse_lines (lines : list str) : result (gmap string (list N)) :=
  (st ← scan init lines; fill_bullets (bullets st) (seq 0 3) (out st)).

Definition parse_output (text : str) : result (gmap string (list N)) :=
  parse_lines (clean_lines text).

End Parser.
Import Parser.

Definition nl : str := [10].

(** ** The body composer *)

(** [parsed.get(k, "")] *)
Definition get (parsed : gmap string (list N)) (k : string) : str :=
  default [] (parsed !! k).

Definition heading_en : str := lit "What we can deliver in 1 week:".

(** The Romanian heading; the letters outside ASCII are U+00EE, U+0103
    and U+00E2. *)
Definition heading_ro : str :=
  lit "Ce putem livra " ++ [238] ++ lit "n 1 s" ++ [259] ++ lit "pt" ++ [259]
  ++ lit "m" ++ [226] ++ lit "n" ++ [259] ++ lit ":".

(** [body_lines.append(x) if cond] *)
Definition append_if (cond : bool) (x : str) (body_lines : list str) : list str :=
  if cond then body_lines ++ [x] else body_lines.

(** The list [body_lines] when [build_email_body] reaches its [return]. *)
Definition body_lines (company niche : str) (parsed : gmap string (list N))
    (lang : str) : list str :=
  let subject := strip (get parsed "subject") in
  let opener := strip (get parsed "opener") in
  let b1 := strip (get parsed "bullet1") in
  let b2 := strip (get parsed "bullet2") in
  let b3 := strip (get parsed "bullet3") in
  let cta := strip (get parsed "cta") in
  let body_lines := [] ++ [opener] in
  let body_lines :=
    if truthy b1 || truthy b2 || truthy b3 then
      let body_lines := body_lines ++ [[]] in
      let body_lines :=
        if startswith (lit "ro") (lower lang)
        then body_lines ++ [heading_ro]
        else body_lines ++ [heading_en] in
      let body_lines := append_if (truthy b1) (lit "- " ++ b1) body_lines in
      let body_lines := append_if (truthy b2) (lit "- " ++ b2) body_lines in
      append_if (truthy b3) (lit "- " ++ b3) body_lines
    else body_lines in
  let body_lines :=
    if truthy cta then (body_lines ++ [[]]) ++ [cta] else body_lines in
  ((body_lines ++ [[]]) ++ [lit "Best,"]) ++ [lit "Magnusbane Team"].

Definition build_email_body (company niche : str)
    (parsed : gmap string (list N)) (lang : str) : str :=
  join nl (body_lines company niche parsed lang).

(** The heading as the specification words it: the Romanian one when
    the language tag starts with "ro" in any case, the English one
    otherwise. *)
Definition spec_heading (lang : str) : str :=
  if startswith (lit "ro") (lower lang) then heading_ro else heading_en.

(** The layout of the body as the specification words it, over the
    field values it is given: the opener; a blank line, the heading and
    one dashed line per non-empty bullet when some bullet is non-empty;
    a blank line and the call to action when that is non-empty; a blank
    line, the closing line and the signature. *)
Definition spec_body_layout (opener b1 b2 b3 cta lang : str) : list str :=
  let shown := filter (fun b => b <> []) [b1; b2; b3] in
  [opener]
  ++ match shown with
     | [] => []
     | _ => [] :: spec_heading lang :: map (fun b => lit "- " ++ b) shown
     end
  ++ match cta with
     | [] => []
     | _ => [[]; cta]
     end
  ++ [[]; lit "Best,"; lit "Magnusbane Team"].

(** ** Cost estimate in binary64 *)

Module Float64.

Definition prec : Z := 53.
Definition emax : Z := 1024.

Definition fmul : spec_float -> spec_float -> spec_float := SFmul prec emax.
Definition fadd : spec_float -> spec_float -> spec_float := SFadd prec emax.
Definition fdiv : spec_float -> spec_float -> spec_float := SFdiv prec emax.

(** Nearest double of an integer, ties to even. *)
Definition nearest (n : Z) : spec_float := binary_normalize prec emax n 0 false.

(** [float(n)] as the arithmetic operators apply it to an [int] operand:
    a value beyond the largest double raises. *)
Definition of_int (n : Z) : result spec_float :=
  match nearest n with
  | S754_infinity _ => Raise OverflowError
  | x => Ok x
  end.

(** A decimal literal [d / 10^k] of the source text, read as the nearest
    double: numerator and denominator are exact, the division rounds
    once. *)
Definition literal (d : Z) (k : Z) : spec_float := fdiv (nearest d) (nearest (10 ^ k)).

(** Decimal digits of a natural number as a Python string. *)
Definition digits (n : N) : str := lit (pretty n).

(** The last six decimal digits, zero padded. *)
Definition digits6 (n : N) : str :=
  map (fun k => 48 + (n / 10 ^ k) mod 10) [5; 4; 3; 2; 1; 0].

(** [m * 2^e * 10^6] rounded to an integer, ties to even. *)
Definition scaled_micro (m : positive) (e : Z) : N :=
  match e with
  | Zneg p =>
      let num := Npos m * 1000000 in
      let den := 2 ^ Npos p in
      let q := num / den in
      let r := num mod den in
      match 2 * r ?= den with
      | Lt => q
      | Gt => q + 1
      | Eq => if N.even q then q else q + 1
      end
  | _ => Npos m * 2 ^ Z.to_N e * 1000000
  end.

(** [f"{x:.6f}"] *)
Definition format_6f (x : spec_float) : str :=
  match x with
  | S754_nan => lit "nan"
  | S754_infinity sg => (if sg then lit "-" else []) ++ lit "inf"
  | S754_zero sg => (if sg then lit "-" else []) ++ lit "0.000000"
  | S754_finite sg m e =>
      let n := scaled_micro m e in
      (if sg then lit "-" else [])
      ++ digits (n / 1000000) ++ lit "." ++ digits6 (n mod 1000000)
  end.

End Float64.
Import Float64.

(** Pricing for gpt-4o-mini, USD per token. *)
Definition INPUT_PER_TOKEN : spec_float := fdiv (literal 15 2) (nearest 1000000).
Definition OUTPUT_PER_TOKEN : spec_float := fdiv (literal 60 2) (nearest 1000000).
Definition MODEL : str := lit "gpt-4o-mini".

Record Usage : Type := MkUsage {
  prompt_tokens : Z;
  completion_tokens : Z;
  total_tokens : Z
}.

Definition est_cost (u : Usage) : result spec_float :=
  p ← of_int (prompt_tokens u);
  c ← of_int (completion_tokens u);
  Ok (fadd (fmul p INPUT_PER_TOKEN) (fmul c OUTPUT_PER_TOKEN)).

(** ** The completion service *)

Definition SYSTEM_PROMPT : str :=
  lit "You are a sales assistant for Magnusbane (AI Automation Agency). "
  ++ lit "Generate highly personalized but concise cold outreach components for SMBs. "
  ++ lit "Tone: friendly, clear, no fluff. European spelling. Avoid hype words.".

(** [USER_TEMPLATE.format(company=.., niche=.., website=.., lang=..)];
    the long dash in item 3 is U+2014. *)
Definition USER_TEMPLATE_format (company niche website lang : str) : str :=
  lit "Company: " ++ company ++ nl
  ++ lit "Niche: " ++ niche ++ nl
  ++ lit "Website (optional): " ++ website ++ nl
  ++ lit "Target output language: " ++ lang ++ nl
  ++ nl
  ++ lit "Tasks:" ++ nl
  ++ lit "1) Subject: 5-7 words, no emojis, no ALL CAPS." ++ nl
  ++ lit "2) Opener: 1-2 sentences, personalized to the niche/company (avoid repeating the company name in every line)." ++ nl
  ++ lit "3) 3 bullets: one-week automations Magnusbane can deliver using Zapier/Make + OpenAI"
  ++ [8212] ++ lit "specific to the niche." ++ nl
  ++ lit "4) CTA: one short line proposing a 15-min call this week." ++ nl
  ++ nl
  ++ lit "Output EXACTLY in this format:" ++ nl
  ++ lit "Subject: <text>" ++ nl
  ++ lit "Opener: <text>" ++ nl
  ++ lit "Bullets:" ++ nl
  ++ lit "- <bullet 1>" ++ nl
  ++ lit "- <bullet 2>" ++ nl
  ++ lit "- <bullet 3>" ++ nl
  ++ lit "CTA: <text>" ++ nl.

Record Message : Type := MkMessage { role : str; content : str }.

Record Request : Type := MkRequest {
  model : str;
  temperature : spec_float;
  messages : list Message
}.

Record Choice : Type := MkChoice { message_content : option (list N) }.

Record CompletionUsage : Type := MkCompletionUsage {
  usage_prompt_tokens : Z;
  usage_completion_tokens : Z;
  usage_total_tokens : Z
}.

Record Response : Type := MkResponse {
  choices : list Choice;
  usage : option CompletionUsage
}.

(** The client object: what [client.chat.completions.create] does with
    the request that is the [n]-th of the run (counted from zero); it
    returns a response or raises. *)
Definition Client : Type := nat -> Request -> result Response.

(** [getattr(resp.usage, name, 0)] *)
Definition getattr_0 (u : option CompletionUsage) (field : CompletionUsage -> Z) : Z :=
  match u with
  | Some cu => field cu
  | None => 0%Z
  end.

(** ** The program state and its observable events *)

Inductive cell : Type :=
  | CStr (v : list N)
  | CInt (n : Z).

(** The lines [main] prints.  Standard output is taken to accept every
    line, so that printing returns. *)
Inductive printed : Type :=
  | PSkipping (row : gmap string (option (list N)))
  | PSaved (outfile : list N)
  | PTotals (prompt completion total : Z)
  | PCost (rendered : list N) (model_name : list N).

Inductive event : Type :=
  | EMkdir (path : list N)
  | EOpenWrite (path : list N)
  | EWriteRow (cells : list cell)
  | ECall (n : nat) (req : Request)
  | EPrint (line : printed)
  | ESleep (milliseconds : Z).

Record state : Type := MkState {
  total : Usage;
  trace : list event
}.

(** Computations of [main]: they read and update the state, and return
    or raise; the state reached is kept in both cases. *)
Definition M (A : Type) : Type := state -> result A * state.

#[global] Instance M_ret : MRet M := fun A a st => (Ok a, st).
#[global] Instance M_bind : MBind M := fun A B k m st =>
  match m st with
  | (Ok a, st') => k a st'
  | (Raise e, st') => (Raise e, st')
  end.

Definition raise {A} (e : exn) : M A := fun st => (Raise e, st).
Definition lift {A} (r : result A) : M A := fun st => (r, st).
Definition emit (e : event) : M unit :=
  fun st => (Ok tt, MkState (total st) (trace st ++ [e])).
Definition get_total : M Usage := fun st => (Ok (total st), st).
Definition set_total (u : Usage) : M unit :=
  fun st => (Ok tt, MkState u (trace st)).
Definition get_trace : M (list event) := fun st => (Ok (trace st), st).

Definition is_call (e : event) : bool :=
  match e with ECall _ _ => true | _ => false end.

(** [x or d] on strings *)
Definition str_or (x d : str) : str := if truthy x then x else d.

(** The request [call_model] sends. *)
Definition request_for (company niche website lang : str) : Request :=
  MkRequest MODEL (literal 3 1)
    [ MkMessage (lit "system") SYSTEM_PROMPT;
      MkMessage (lit "user")
        (USER_TEMPLATE_format company niche (str_or website (lit "N/A")) lang) ].

(** What [call_model] reads off the response: the trimmed content of the
    first choice, and the three counters. *)
Definition read_response (resp : Response) : result (list N * Usage) :=
  choice ← index (choices resp) 0;
  content ← match message_content choice with
            | Some c => Ok (strip c)
            | None => Raise AttributeError
            end;
  Ok (content,
      MkUsage (getattr_0 (usage resp) usage_prompt_tokens)
              (getattr_0 (usage resp) usage_completion_tokens)
              (getattr_0 (usage resp) usage_total_tokens)).

(** The number of requests sent so far. *)
Definition calls_made (tr : list event) : nat :=
  length (filter (fun e => is_call e = true) tr).

Definition call_model (client : Client) (company niche website lang : str)
    : M (list N * Usage) :=
  let req := request_for company niche website lang in
  tr ← get_trace;
  let n := calls_made tr in
  _ ← emit (ECall n req);
  resp ← lift (client n req);
  lift (read_response resp).

(** ** The main loop *)

Record Args : Type := MkArgs {
  infile : str;
  outfile : option (list N);
  default_lang : str;
  delay_ms : Z
}.

Definition fieldnames : list string :=
  ["company_name"; "niche"; "website"; "lang";
   "subject"; "opener"; "bullet1"; "bullet2"; "bullet3"; "cta";
   "email_body";
   "prompt_tokens"; "completion_tokens"; "total_tokens"; "est_cost_usd"].

(** A surrogate code point, U+D800 to U+DFFF: the UTF-8 codec refuses
    it. *)
Definition is_surrogate (c : codepoint) : bool := (55296 <=? c) && (c <=? 57343).

(** Whether [l.encode("utf-8")] returns. *)
Definition encodable (l : str) : bool := forallb (fun c => negb (is_surrogate c)) l.

Definition cell_encodable (c : cell) : bool :=
  match c with
  | CStr v => encodable v
  | CInt _ => true
  end.

(** [writer.writerow(rowdict)]: a key outside the field names raises, a
    missing one is written as the empty string.  The line is written in
    one piece to a file opened with [encoding="utf-8"]: a text that
    cannot be encoded raises, and nothing of the row is written. *)
Definition writerow (rowdict : gmap string cell) : M unit :=
  if bool_decide (dom rowdict ⊆ list_to_set fieldnames) then
    let cells := map (fun k => default (CStr []) (rowdict !! k)) fieldnames in
    if forallb cell_encodable cells then emit (EWriteRow cells)
    else raise UnicodeEncodeError
  else raise ValueError.

Definition writeheader : M unit :=
  emit (EWriteRow (map (fun k => CStr (lit k)) fieldnames)).

(** [row.get(k)]: the column may be absent from the header, or the row
    may be too short to reach it; both give [None]. *)
Definition row_get (row : gmap string (option (list N))) (k : string) : option (list N) :=
  match row !! k with
  | Some v => v
  | None => None
  end.

(** [v or d] where [v] may be [None] *)
Definition opt_or (v : option (list N)) (d : str) : str :=
  match v with
  | Some x => str_or x d
  | None => d
  end.

(** [(row.get("lang") or args.default_lang).strip() or args.default_lang] *)
Definition effective_lang (args : Args) (row : gmap string (option (list N))) : str :=
  str_or (strip (opt_or (row_get row "lang") (default_lang args))) (default_lang args).

(** The output record passed to [writerow]; in the dictionary display a
    later key replaces an earlier equal one. *)
Definition output_record (company niche website lang : str)
    (parsed : gmap string (list N)) (email_body : str) (u : Usage)
    (est_cost_usd : str) : gmap string cell :=
  let d := <["lang" := CStr lang]> (<["website" := CStr website]>
           (<["niche" := CStr niche]> (<["company_name" := CStr company]> ∅))) in
  let d := (CStr <$> parsed) ∪ d in
  <["est_cost_usd" := CStr est_cost_usd]>
  (<["total_tokens" := CInt (total_tokens u)]>
  (<["completion_tokens" := CInt (completion_tokens u)]>
  (<["prompt_tokens" := CInt (prompt_tokens u)]>
  (<["email_body" := CStr email_body]> d)))).

Definition add_usage (t u : Usage) : Usage :=
  MkUsage (prompt_tokens t + prompt_tokens u)
          (completion_tokens t + completion_tokens u)
          (total_tokens t + total_tokens u).

(** [(row.get(k) or "").strip()] *)
Definition row_field (row : gmap string (option (list N))) (k : string) : str :=
  strip (opt_or (row_get row k) []).

(** The record written for a row whose generation returned [text] and
    [u], with [cost] as its estimated cost. *)
Definition record_cells (args : Args) (row : gmap string (option (list N)))
    (parsed : gmap string (list N)) (u : Usage) (cost : spec_float) : list cell :=
  let company := row_field row "company_name" in
  let niche := row_field row "niche" in
  let lang := effective_lang args row in
  map (fun k => default (CStr [])
                  (output_record company niche (row_field row "website") lang parsed
                     (build_email_body company niche parsed lang) u (format_6f cost)
                   !! k))
      fieldnames.

(** Whether [time.sleep] takes a pause of [secs] seconds.  CPython turns
    the seconds into a count of nanoseconds, rounded up to an integer,
    and raises [OverflowError] unless the count is below [2^63]; for a
    number of seconds that is not negative the rounding does not change
    the comparison. *)
Definition sleep_accepts (secs : spec_float) : bool :=
  SFltb (fmul secs (nearest (10 ^ 9)%Z)) (nearest (2 ^ 63)%Z).

(** [time.sleep(ms / 1000.0)]: the division converts the integer to a
    double and raises when it has none.  The event keeps the pause in
    milliseconds. *)
Definition sleep_ms (ms : Z) : M unit :=
  d ← lift (of_int ms);
  if sleep_accepts (fdiv d (nearest 1000)) then emit (ESleep ms)
  else raise OverflowError.

(** The body of [for row in reader]. *)
Definition loop_body (args : Args) (client : Client)
    (row : gmap string (option (list N))) : M unit :=
  let company := row_field row "company_name" in
  let niche := row_field row "niche" in
  let website := row_field row "website" in
  let lang := effective_lang args row in
  if negb (truthy company) || negb (truthy niche) then
    emit (EPrint (PSkipping row))
  else
    '(text, u) ← call_model client company niche website lang;
    parsed ← lift (parse_output text);
    let email_body := build_email_body company niche parsed lang in
    t ← get_total;
    _ ← set_total (add_usage t u);
    cost ← lift (est_cost u);
    _ ← writerow (output_record company niche website lang parsed email_body u
                    (format_6f cost));
    sleep_ms (Z.max (delay_ms args) 0).

Fixpoint for_each {A} (body : A -> M unit) (l : list A) : M unit :=
  match l with
  | [] => mret tt
  | x :: rest => _ ← body x; for_each body rest
  end.

(** The world [main] runs in: the names defined in the environment, the
    rows the reader yields for each existing input path, and the time
    stamp.  Paths are kept in the form [pathlib] prints them. *)
Record World : Type := MkWorld {
  environ : gset string;
  input_rows : list N -> option (list (gmap string (option (list N))));
  timestamp : str
}.

(** [main], with [args] as [ap.parse_args()] returned them and [client]
    as [OpenAI()] built it. *)
Definition main (w : World) (args : Args) (client : Client) : M unit :=
  if bool_decide ("OPENAI_API_KEY" ∉ environ w) then
    raise (SystemExit
      (lit "Missing OPENAI_API_KEY. Put it in your environment or a .env file."))
  else
    let inp := infile args in
    match input_rows w inp with
    | None => raise (SystemExit (lit "Input CSV not found: " ++ inp))
    | Some rows =>
        let outdir := lit "outputs" in
        _ ← emit (EMkdir outdir);
        let outpath :=
          match outfile args with
          | Some o => str_or o (outdir ++ lit "/prospects_out-" ++ timestamp w ++ lit ".csv")
          | None => outdir ++ lit "/prospects_out-" ++ timestamp w ++ lit ".csv"
          end in
        _ ← set_total (MkUsage 0 0 0);
        _ ← emit (EOpenWrite outpath);
        _ ← writeheader;
        _ ← for_each (loop_body args client) rows;
        t ← get_total;
        grand ← lift (est_cost t);
        _ ← emit (EPrint (PSaved outpath));
        _ ← emit (EPrint (PTotals (prompt_tokens t) (completion_tokens t) (total_tokens t)));
        emit (EPrint (PCost (format_6f grand) MODEL))
    end.

Definition state0 : state := MkState (MkUsage 0 0 0) [].

Definition acme_response : str :=
  join nl [ lit "Subject: Faster Orders For Acme";
            lit "Opener: Noticed your weekend rush at the counter.";
            lit "Bullets:";
            lit "- Auto-confirm online orders";
            lit "- Daily sales summary email";
            lit "- Low-stock alerts";
            lit "CTA: Got 15 min this week?" ].

(** A response in the documented format, with [bs] as bullet texts. *)
Definition render_response (subject opener : str) (bs : list str) (cta : str) : str :=
  join nl ([lit "Subject: " ++ subject; lit "Opener: " ++ opener; lit "Bullets:"]
           ++ map (fun b => lit "- " ++ b) bs
           ++ [lit "CTA: " ++ cta]).

(** A text that fits on one line. *)
Definition single_line (l : str) : Prop := Forall (fun c => is_linebreak c = false) l.

(** What slot [i] receives from the collected bullets. *)
Definition slot (bs : list str) (i : nat) : str := default [] (bs !! i).

(** Whether some scanned line carries the marker [m] (lower case). *)
Definition has_marker (m : str) (lines : list str) : bool :=
  existsb (fun l => startswith m (lower l)) lines.

Definition six_fields : gset string :=
  {[ "subject"; "opener"; "bullet1"; "bullet2"; "bullet3"; "cta" ]}.

(** Whether one of the patterns of the scanning loop applies to [l] in
    state [st]. *)
Definition line_matches (st : pstate) (l : str) : bool :=
  startswith (lit "subject:") (lower l)
  || startswith (lit "opener:") (lower l)
  || startswith (lit "bullets:") (lower l)
  || (startswith (lit "-") l && bool_decide (section st = Some "bullets"))
  || startswith (lit "cta:") (lower l).

(** What one iteration can do to the loop variables. *)
Inductive step_spec (st : pstate) : pstate -> Prop :=
  | step_field k v :
      k ∈ ({[ "subject"; "opener"; "cta" ]} : gset string) ->
      step_spec st (PState (<[k := v]> (out st)) (bullets st) None)
  | step_marker :
      step_spec st (PState (out st) (bullets st) (Some "bullets"))
  | step_bullet b :
      section st = Some "bullets" ->
      step_spec st (PState (out st) (bullets st ++ [b]) (section st))
  | step_ignored :
      step_spec st st.

(** The text of bullet [i] of a response, without surrounding white
    space; the empty string when the response has no such bullet. *)
Definition bullet_text (bs : list str) (i : nat) : str :=
  match bs !! i with
  | Some b => strip b
  | None => []
  end.

(** A dictionary whose values carry no surrounding white space. *)
Definition trimmed_fields (d : gmap string (list N)) : Prop :=
  map_Forall (fun _ v => strip v = v) d.

(** Whether the composer shows a bullet block for [parsed]. *)
Definition shows_bullets (parsed : gmap string (list N)) : bool :=
  truthy (strip (get parsed "bullet1")) || truthy (strip (get parsed "bullet2"))
  || truthy (strip (get parsed "bullet3")).

(** The message parsed from [acme_response]. *)
Definition acme_parsed : gmap string (list N) :=
  <["bullet3" := lit "Low-stock alerts"]>
  (<["bullet2" := lit "Daily sales summary email"]>
  (<["bullet1" := lit "Auto-confirm online orders"]>
  (<["cta" := lit "Got 15 min this week?"]>
  (<["opener" := lit "Noticed your weekend rush at the counter."]>
  (<["subject" := lit "Faster Orders For Acme"]> out_init))))).

(** A row the loop processes: company and niche are both non-empty once
    trimmed. *)
Definition valid_row (row : gmap string (option (list N))) : bool :=
  truthy (row_field row "company_name") && truthy (row_field row "niche").

(** The records written to the output file, in order (the header first). *)
Definition written (tr : list event) : list (list cell) :=
  omap (fun e => match e with EWriteRow cells => Some cells | _ => None end) tr.

(** The rows reported as skipped, in order. *)
Definition skipped (tr : list event) : list (gmap string (option (list N))) :=
  omap (fun e => match e with EPrint (PSkipping row) => Some row | _ => None end) tr.

(** The integer in column [i] of a written record; a text cell counts
    for nothing. *)
Definition int_at (cells : list cell) (i : nat) : Z :=
  match cells !! i with
  | Some (CInt n) => n
  | _ => 0%Z
  end.

(** The usage columns of a written record. *)
Definition record_usage (cells : list cell) : Usage :=
  MkUsage (int_at cells 11) (int_at cells 12) (int_at cells 13).

Definition sum_usage (us : list Usage) : Usage :=
  foldr (fun u acc => add_usage u acc) (MkUsage 0 0 0) us.

(** Whether the pause of [ms] milliseconds is taken: the milliseconds
    have a double and [time.sleep] takes the seconds. *)
Definition pause_accepted (ms : Z) : bool :=
  match of_int ms with
  | Ok d => sleep_accepts (fdiv d (nearest 1000))
  | Raise _ => false
  end.

(** What one iteration on a processed row appends to the trace. *)
Definition row_events (args : Args) (row : gmap string (option (list N)))
    (n : nat) (parsed : gmap string (list N)) (u : Usage) (cost : spec_float)
    : list event :=
  [ ECall n (request_for (row_field row "company_name") (row_field row "niche")
               (row_field row "website") (effective_lang args row));
    EWriteRow (record_cells args row parsed u cost);
    ESleep (Z.max (delay_ms args) 0) ].

Definition sumZ (l : list Z) : Z := foldr Z.add 0%Z l.

(** ** A sample run *)

Definition acme_row : gmap string (option (list N)) :=
  <["niche" := Some (lit "coffee shop")]>
  (<["company_name" := Some (lit "Acme Roasters")]> ∅).

(** A row whose company is blank and whose last columns are missing. *)
Definition blank_row : gmap string (option (list N)) :=
  <["lang" := None]> (<["niche" := Some (lit "bakery")]>
  (<["company_name" := Some (lit "   ")]> ∅)).

Definition sample_args : Args := MkArgs (lit "prospects_sample.csv") None (lit "English") 600.

(** A service that answers every request with the Acme response. *)
Definition acme_client : Client := fun _ _ =>
  Ok (MkResponse [MkChoice (Some acme_response)] (Some (MkCompletionUsage 120 80 200))).

(** A service that turns every request down. *)
Definition failing_client : Client := fun _ _ => Raise (ServiceError 429).

Definition sample_world : World :=
  MkWorld {[ "OPENAI_API_KEY" ]}
    (fun path => if bool_decide (path = lit "prospects_sample.csv")
                 then Some [acme_row; blank_row; acme_row] else None)
    (lit "20250101-1200").

(** ** Shapes of doubles and of rendered costs *)

(** A double that is zero or finite, with exponent at most [E] and
    magnitude below [2^K]. *)
Definition within (E K : Z) (x : spec_float) : Prop :=
  match x with
  | S754_zero _ => True
  | S754_finite _ m e => (e <= E)%Z /\ (Zdigits2 (Zpos m) + e <= K)%Z
  | _ => False
  end.

Definition is_finite (x : spec_float) : Prop :=
  match x with
  | S754_zero _ | S754_finite _ _ _ => True
  | _ => False
  end.

Definition is_digit (c : N) : Prop := 48 <= c <= 57.

(** A decimal numeral with exactly six digits after the point. *)
Definition six_decimals (t : str) : Prop :=
  exists sign whole frac,
    t = sign ++ whole ++ lit "." ++ frac
    /\ (sign = [] \/ sign = lit "-")
    /\ whole <> [] /\ Forall is_digit whole
    /\ length frac = 6%nat /\ Forall is_digit frac.

(** The double 0.75, that is 3 * 2^51 * 2^-53. *)
Definition three_quarters : spec_float := S754_finite false 6755399441055744 (-53).

(** The three fields set from a line of their own, each with the marker
    the scanning loop tests the lower-cased line for. *)
Definition field_markers : list (string * list N) :=
  [("subject", lit "subject:"); ("opener", lit "opener:"); ("cta", lit "cta:")].

(** A field value as the parser leaves it: one line, no white space
    around it. *)
Definition tidy (v : list N) : Prop := strip v = v /\ single_line v.

(** The fields [build_email_body] puts into the body. *)
Definition body_fields : list string :=
  ["opener"; "bullet1"; "bullet2"; "bullet3"; "cta"].

(** The request the loop sends for a row. *)
Definition row_request (args : Args) (row : gmap string (option (list N))) : Request :=
  request_for (row_field row "company_name") (row_field row "niche")
    (row_field row "website") (effective_lang args row).

(** The body of a message with no opener, no bullet and no call to
    action. *)
Definition closing_only : list N :=
  join nl [[]; []; lit "Best,"; lit "Magnusbane Team"].

(** The requests sent, in order, each with its number in the run. *)
Definition requests (tr : list event) : list (nat * Request) :=
  omap (fun e => match e with ECall n req => Some (n, req) | _ => None end) tr.

(** The pauses taken, in order, in milliseconds. *)
Definition sleeps (tr : list event) : list Z :=
  omap (fun e => match e with ESleep ms => Some ms | _ => None end) tr.








(** A row whose cells can all be encoded. *)
Definition row_encodable (row : gmap string (option (list N))) : Prop :=
  forall k v, row !! k = Some (Some v) -> encodable v = true.


(** A double that is a number and whose sign bit is clear. *)
Definition sign_clear (x : spec_float) : Prop :=
  match x with
  | S754_zero sg | S754_infinity sg | S754_finite sg _ _ => sg = false
  | S754_nan => False
  end.

(** * Properties *)

(** ** Strings *)

Section StringFacts.

Implicit Types (l a b p : list N) (c : N).

Lemma startswith_app p l : startswith p (p ++ l) = true.
Proof. induction p as [|x p IH]; simpl; [done|]. by rewrite N.eqb_refl. Qed.

Lemma startswith_prefix p l : startswith p l = true -> exists r, l = p ++ r.
Proof.
  revert l. induction p as [|x p IH]; intros l H; simpl in *; [by exists l|].
  destruct l as [|y l]; [done|].
  apply andb_true_iff in H as [Hxy Hp]. apply N.eqb_eq in Hxy as ->.
  destruct (IH _ Hp) as [r ->]. by exists r.
Qed.

Lemma lower_app a b : lower (a ++ b) = lower a ++ lower b.
Proof. unfold lower. apply flat_map_app. Qed.

Lemma lower_char_colon c : In 58 (lower_char c) -> c = 58.
Proof.
  unfold lower_char.
  destruct ((65 <=? c) && (c <=? 90)) eqn:E.
  - apply andb_true_iff in E as [E1 E2].
    apply N.leb_le in E1. intros [H|[]]. lia.
  - destruct (c =? 304); [simpl; intuition discriminate|].
    destruct (c =? 8490); [simpl; intuition discriminate|].
    simpl. intuition.
Qed.

Lemma lower_colon l : In 58 (lower l) -> In 58 l.
Proof.
  unfold lower. rewrite in_flat_map. intros (c & Hc & H).
  by apply lower_char_colon in H as ->.
Qed.

Lemma split_colon_1_found l :
  In 58 l -> exists a b, split_colon_1 l = [a; b].
Proof.
  induction l as [|c l IH]; [done|]. intros H. simpl.
  destruct (c =? 58) eqn:E; [by eauto|].
  destruct H as [->|H]; [by rewrite N.eqb_refl in E|].
  destruct (IH H) as (a & b & ->). eauto.
Qed.

Lemma lstrip_all_space l : forallb is_space l = true -> lstrip l = [].
Proof.
  induction l as [|c l IH]; simpl; [done|].
  intros H. apply andb_true_iff in H as [-> H]. auto.
Qed.

Lemma lstrip_nil_all_space l : lstrip l = [] -> forallb is_space l = true.
Proof.
  induction l as [|c l IH]; simpl; [done|].
  destruct (is_space c); [auto|done].
Qed.

Lemma lstrip_snoc l c :
  lstrip (l ++ [c]) =
  if forallb is_space l then (if is_space c then [] else [c]) else lstrip l ++ [c].
Proof.
  induction l as [|x l IH]; simpl; [done|].
  destruct (is_space x); simpl; [apply IH|done].
Qed.

Lemma forallb_rev (f : N -> bool) l : forallb f (rev l) = forallb f l.
Proof.
  induction l as [|x l IH]; simpl; [done|].
  rewrite forallb_app, IH. simpl. rewrite andb_true_r. apply andb_comm.
Qed.

Lemma rstrip_cons c l :
  rstrip (c :: l) =
  if forallb is_space l && is_space c then [] else c :: rstrip l.
Proof.
  unfold rstrip. simpl. rewrite lstrip_snoc, forallb_rev.
  destruct (forallb is_space l) eqn:A; simpl.
  - destruct (is_space c) eqn:E; simpl; [done|].
    rewrite lstrip_all_space; [done|]. by rewrite forallb_rev.
  - by rewrite rev_unit.
Qed.

Lemma rstrip_cons_keep c l : is_space c = false -> rstrip (c :: l) = c :: rstrip l.
Proof. intros H. by rewrite rstrip_cons, H, andb_false_r. Qed.

Lemma rstrip_all_space l : forallb is_space l = true -> rstrip l = [].
Proof.
  intros H. unfold rstrip. rewrite lstrip_all_space; [done|].
  by rewrite forallb_rev.
Qed.

Lemma lstrip_idem l : lstrip (lstrip l) = lstrip l.
Proof.
  induction l as [|c l IH]; simpl; [done|].
  destruct (is_space c) eqn:E; [done|]. simpl. by rewrite E.
Qed.

Lemma rstrip_idem l : rstrip (rstrip l) = rstrip l.
Proof. unfold rstrip. by rewrite rev_involutive, lstrip_idem. Qed.

Lemma lstrip_rstrip l : lstrip (rstrip l) = rstrip (lstrip l).
Proof.
  induction l as [|c l IH]; [done|].
  rewrite rstrip_cons. simpl.
  destruct (is_space c) eqn:E.
  - rewrite andb_true_r. destruct (forallb is_space l) eqn:A.
    + by rewrite (lstrip_all_space l A).
    + simpl. by rewrite E.
  - rewrite andb_false_r. simpl. by rewrite E, rstrip_cons_keep.
Qed.

Lemma strip_idem l : strip (strip l) = strip l.
Proof.
  unfold strip.
  by rewrite lstrip_rstrip, lstrip_idem, rstrip_idem.
Qed.

(** Trimming is blind to white space added in front. *)
Lemma strip_rstrip_space_cons c l :
  is_space c = true -> strip (rstrip (c :: l)) = strip l.
Proof.
  intros H. unfold strip.
  rewrite lstrip_rstrip, rstrip_idem. simpl. by rewrite H.
Qed.

Lemma join_cons sep a (r : list (list N)) :
  r <> [] -> join sep (a :: r) = a ++ sep ++ join sep r.
Proof. by destruct r. Qed.

Lemma splitlines_from_line cur a rest :
  single_line a ->
  splitlines_from cur (a ++ 10 :: rest) = (cur ++ a) :: splitlines_from [] rest.
Proof.
  intros Ha. revert cur.
  induction Ha as [|c a Hc Ha IH]; intros cur; simpl.
  - by rewrite app_nil_r.
  - destruct (c =? 13) eqn:E.
    { apply N.eqb_eq in E as ->. discriminate Hc. }
    rewrite Hc, IH. by rewrite <- app_assoc.
Qed.

Lemma splitlines_from_last cur a :
  single_line a -> cur ++ a <> [] -> splitlines_from cur a = [cur ++ a].
Proof.
  intros Ha. revert cur.
  induction Ha as [|c a Hc Ha IH]; intros cur Hne; simpl.
  - rewrite app_nil_r in *. by destruct cur.
  - destruct (c =? 13) eqn:E.
    { apply N.eqb_eq in E as ->. discriminate Hc. }
    rewrite Hc, IH; rewrite <- app_assoc; [done|].
    by destruct cur.
Qed.

Lemma splitlines_join ls last :
  Forall single_line ls -> single_line last -> last <> [] ->
  splitlines (join nl (ls ++ [last])) = ls ++ [last].
Proof.
  unfold splitlines. intros Hls Hlast Hne.
  induction Hls as [|a ls Ha Hls IH].
  - by apply (splitlines_from_last []).
  - rewrite <- app_comm_cons, join_cons by (by destruct ls).
    change (a ++ nl ++ ?r) with (a ++ 10 :: r).
    by rewrite splitlines_from_line, IH.
Qed.

End StringFacts.

(** ** The response parser *)

Section ParserFacts.

Implicit Types (l m : list N) (st : pstate) (lines bs : list (list N)).

Lemma bind_Ok {A B} (a : A) (k : A -> result B) : (x ← Ok a; k x) = k a.
Proof. reflexivity. Qed.

Lemma guarded_index bs i :
  (if bool_decide (i < length bs)%nat then index bs i else Ok []) = Ok (slot bs i).
Proof.
  unfold index, slot. case_bool_decide as H.
  - apply lookup_lt_is_Some in H as [b ->]. done.
  - rewrite lookup_ge_None_2 by lia. done.
Qed.

Lemma fill_bullets_3 bs (o : gmap string (list N)) :
  fill_bullets bs (seq 0 3) o =
  Ok (<["bullet3" := slot bs 2]> (<["bullet2" := slot bs 1]>
     (<["bullet1" := slot bs 0]> o))).
Proof.
  cbn [seq fill_bullets]. rewrite !guarded_index. reflexivity.
Qed.

Ltac has_colon := cbv; repeat first [left; reflexivity | right].

Lemma value_after_colon_ok m l :
  In 58 m -> startswith m (lower l) = true ->
  exists v, value_after_colon l = Ok v.
Proof.
  intros Hm H. apply startswith_prefix in H as [r Hr].
  assert (In 58 l) as Hl.
  { apply lower_colon. rewrite Hr. apply in_or_app. by left. }
  destruct (split_colon_1_found l Hl) as (a & b & E).
  exists (strip b). unfold value_after_colon. by rewrite E.
Qed.

Lemma step_ok st l : exists st', step st l = Ok st' /\ step_spec st st'.
Proof.
  unfold step.
  destruct (startswith (lit "subject:") (lower l)) eqn:E1.
  { destruct (value_after_colon_ok (lit "subject:") l ltac:(has_colon) E1) as [v ->].
    eexists; split; [reflexivity|]. apply step_field. set_solver. }
  destruct (startswith (lit "opener:") (lower l)) eqn:E2.
  { destruct (value_after_colon_ok (lit "opener:") l ltac:(has_colon) E2) as [v ->].
    eexists; split; [reflexivity|]. apply step_field. set_solver. }
  destruct (startswith (lit "bullets:") (lower l)) eqn:E3.
  { eexists; split; [reflexivity|]. apply step_marker. }
  destruct (startswith (lit "-") l && bool_decide (section st = Some "bullets")) eqn:E4.
  { apply andb_true_iff in E4 as [_ E4]. apply bool_decide_eq_true in E4.
    eexists; split; [reflexivity|]. by apply step_bullet. }
  destruct (startswith (lit "cta:") (lower l)) eqn:E5.
  { destruct (value_after_colon_ok (lit "cta:") l ltac:(has_colon) E5) as [v ->].
    eexists; split; [reflexivity|]. apply step_field. set_solver. }
  eexists; split; [reflexivity|]. apply step_ignored.
Qed.

Lemma scan_ok st lines : exists st', scan st lines = Ok st'.
Proof.
  revert st. induction lines as [|l lines IH]; intros st; [by eexists|].
  destruct (step_ok st l) as (st1 & E & _). cbn [scan]. rewrite E.
  apply IH.
Qed.

Lemma scan_app st lines1 lines2 :
  scan st (lines1 ++ lines2) = (st' ← scan st lines1; scan st' lines2).
Proof.
  revert st. induction lines1 as [|l lines1 IH]; intros st; [done|].
  cbn [scan app]. destruct (step st l) as [st1|e]; [|done].
  rewrite !bind_Ok. apply IH.
Qed.

Lemma step_spec_dom st st' :
  step_spec st st' -> dom (out st) = six_fields -> dom (out st') = six_fields.
Proof.
  intros [k v Hk| |b Hb|] Hd; cbn [out]; try done.
  rewrite dom_insert_L, Hd. unfold six_fields. set_solver.
Qed.

(** An invariant of the scanning loop is kept by every step. *)
Lemma scan_invariant (P : pstate -> Prop) (Q : list N -> Prop) :
  (forall st l st', Q l -> P st -> step st l = Ok st' -> P st') ->
  forall lines st st', Forall Q lines -> P st -> scan st lines = Ok st' -> P st'.
Proof.
  intros HP lines. induction lines as [|l lines IH]; intros st st' HQ Hst H.
  - cbn in H. by injection H as <-.
  - cbn [scan] in H. destruct (step st l) as [st1|e] eqn:E; [|done].
    rewrite bind_Ok in H. inversion HQ; subst. eauto.
Qed.

Lemma scan_dom st lines st' :
  dom (out st) = six_fields -> scan st lines = Ok st' -> dom (out st') = six_fields.
Proof.
  intros Hd H.
  apply (scan_invariant (fun st => dom (out st) = six_fields) (fun _ => True))
    with (lines := lines) (st := st); auto.
  - intros s1 l s2 _ H1 E. destruct (step_ok s1 l) as (s3 & E' & Hs).
    rewrite E in E'. injection E' as <-. by eapply step_spec_dom.
  - by apply Forall_forall.
Qed.

Lemma out_init_dom : dom out_init = six_fields.
Proof. unfold out_init, six_fields. rewrite !dom_insert_L. set_solver. Qed.

(** The scanner only ever appends to the collected bullets. *)
Lemma scan_bullets_grow st lines st' :
  scan st lines = Ok st' -> exists later, bullets st' = bullets st ++ later.
Proof.
  revert st. induction lines as [|l lines IH]; intros st H.
  - cbn in H. injection H as <-. exists []. by rewrite app_nil_r.
  - cbn [scan] in H. destruct (step_ok st l) as (st1 & E & Hs).
    rewrite E, bind_Ok in H. destruct (IH _ H) as [later ->].
    destruct Hs; cbn [bullets]; eauto.
    rewrite <- app_assoc. eauto.
Qed.

Lemma parse_lines_eq lines :
  parse_lines lines =
  (st ← scan init lines;
   Ok (<["bullet3" := slot (bullets st) 2]> (<["bullet2" := slot (bullets st) 1]>
      (<["bullet1" := slot (bullets st) 0]> (out st))))).
Proof.
  unfold parse_lines. destruct (scan init lines); [|done].
  rewrite !bind_Ok. apply fill_bullets_3.
Qed.

End ParserFacts.

Section ParserMarkers.

Implicit Types (l m : list N) (st : pstate) (lines bs : list (list N)).

Lemma has_marker_false m lines :
  has_marker m lines = false ->
  Forall (fun l => startswith m (lower l) = false) lines.
Proof.
  unfold has_marker. induction lines as [|l lines IH]; cbn [existsb]; intros H.
  - constructor.
  - apply orb_false_iff in H as [H1 H2]. constructor; auto.
Qed.

(** Case analysis of one iteration that has returned [st']. *)
Ltac step_inv E :=
  unfold step in E;
  repeat match type of E with
         | context [if ?c then _ else _] => destruct c eqn:?
         end;
  repeat match type of E with
         | context [value_after_colon ?l] => destruct (value_after_colon l)
         end;
  cbn in E; try discriminate E; injection E as <-; cbn [out bullets section].

Lemma step_keeps_subject st l st' :
  startswith (lit "subject:") (lower l) = false ->
  step st l = Ok st' -> out st' !! "subject" = out st !! "subject".
Proof.
  intros H E. step_inv E; try done; try congruence;
    by rewrite lookup_insert_ne.
Qed.

Lemma step_keeps_opener st l st' :
  startswith (lit "opener:") (lower l) = false ->
  step st l = Ok st' -> out st' !! "opener" = out st !! "opener".
Proof.
  intros H E. step_inv E; try done; try congruence;
    by rewrite lookup_insert_ne.
Qed.

Lemma step_keeps_cta st l st' :
  startswith (lit "cta:") (lower l) = false ->
  step st l = Ok st' -> out st' !! "cta" = out st !! "cta".
Proof.
  intros H E. step_inv E; try done; try congruence;
    by rewrite lookup_insert_ne.
Qed.

Lemma step_keeps_no_bullets st l st' :
  startswith (lit "bullets:") (lower l) = false ->
  section st = None /\ bullets st = [] ->
  step st l = Ok st' -> section st' = None /\ bullets st' = [].
Proof.
  intros H [Hs Hb] E. step_inv E; try done; try congruence.
  match goal with
  | X : _ && bool_decide _ = true |- _ =>
      apply andb_true_iff in X as [_ X]; apply bool_decide_eq_true in X;
      congruence
  end.
Qed.

Lemma step_ignores st l : line_matches st l = false -> step st l = Ok st.
Proof.
  unfold line_matches, step. intros H.
  repeat (apply orb_false_iff in H as [H ?]).
  by repeat match goal with X : _ = false |- _ => rewrite X; clear X end.
Qed.

End ParserMarkers.

Section ParserFormat.

Implicit Types (l r x : list N) (st : pstate) (lines bs : list (list N)).

Lemma clean_cons_keep l lines :
  truthy (strip l) = true -> clean (l :: lines) = strip l :: clean lines.
Proof. intros H. unfold clean. by rewrite filter_cons_True. Qed.

Lemma clean_app lines1 lines2 : clean (lines1 ++ lines2) = clean lines1 ++ clean lines2.
Proof. unfold clean. by rewrite filter_app, map_app. Qed.

Lemma rstrip_prefixed p x :
  Forall (fun c => is_space c = false) p -> rstrip (p ++ x) = p ++ rstrip x.
Proof.
  induction 1 as [|c p Hc Hp IH]; [done|].
  cbn [app]. by rewrite rstrip_cons_keep, IH.
Qed.

Lemma strip_prefixed c p x :
  Forall (fun c => is_space c = false) (c :: p) ->
  strip ((c :: p) ++ x) = (c :: p) ++ rstrip x.
Proof.
  intros H. unfold strip. cbn [app lstrip].
  inversion H as [|? ? Hc Hp]; subst. rewrite Hc.
  by apply (rstrip_prefixed (c :: p)).
Qed.

Ltac no_space := repeat constructor.

(** Decide the prefix tests of an iteration on a line whose first
    characters are known. *)
Ltac decide_prefixes :=
  repeat match goal with
         | |- context [startswith ?p ?l] =>
             first [ replace (startswith p l) with true by reflexivity
                   | replace (startswith p l) with false by reflexivity ]
         end.

Lemma step_subject_line st r :
  step st (lit "Subject:" ++ r)
  = Ok (PState (<["subject" := strip r]> (out st)) (bullets st) None).
Proof. unfold step. decide_prefixes. reflexivity. Qed.

Lemma step_opener_line st r :
  step st (lit "Opener:" ++ r)
  = Ok (PState (<["opener" := strip r]> (out st)) (bullets st) None).
Proof. unfold step. decide_prefixes. reflexivity. Qed.

Lemma step_cta_line st r :
  step st (lit "CTA:" ++ r)
  = Ok (PState (<["cta" := strip r]> (out st)) (bullets st) None).
Proof. unfold step. decide_prefixes. reflexivity. Qed.

Lemma step_bullets_line st :
  step st (lit "Bullets:") = Ok (PState (out st) (bullets st) (Some "bullets")).
Proof. unfold step. decide_prefixes. reflexivity. Qed.

Lemma step_dash_line st r :
  section st = Some "bullets" ->
  step st (45 :: r) = Ok (PState (out st) (bullets st ++ [strip r]) (section st)).
Proof.
  intros H. unfold step. decide_prefixes.
  rewrite bool_decide_eq_true_2 by done. reflexivity.
Qed.

Lemma scan_dash_lines st bs rest :
  section st = Some "bullets" ->
  scan st (map (fun b => 45 :: rstrip (32 :: b)) bs ++ rest)
  = scan (PState (out st) (bullets st ++ map strip bs) (section st)) rest.
Proof.
  revert st. induction bs as [|b bs IH]; intros st H.
  - cbn [map app]. rewrite app_nil_r. by destruct st.
  - cbn [map app scan]. rewrite step_dash_line, bind_Ok by done.
    rewrite IH by done. cbn [out bullets section].
    rewrite strip_rstrip_space_cons by reflexivity.
    by rewrite <- app_assoc.
Qed.

Lemma single_line_app a b : single_line a -> single_line b -> single_line (a ++ b).
Proof. apply Forall_app_2. Qed.

Lemma strip_Subject x : strip (lit "Subject: " ++ x) = lit "Subject:" ++ rstrip (32 :: x).
Proof. apply (strip_prefixed 83 (lit "ubject:") (32 :: x)). no_space. Qed.

Lemma strip_Opener x : strip (lit "Opener: " ++ x) = lit "Opener:" ++ rstrip (32 :: x).
Proof. apply (strip_prefixed 79 (lit "pener:") (32 :: x)). no_space. Qed.

Lemma strip_CTA x : strip (lit "CTA: " ++ x) = lit "CTA:" ++ rstrip (32 :: x).
Proof. apply (strip_prefixed 67 (lit "TA:") (32 :: x)). no_space. Qed.

Lemma strip_dash x : strip (lit "- " ++ x) = 45 :: rstrip (32 :: x).
Proof. apply (strip_prefixed 45 [] (32 :: x)). no_space. Qed.

Lemma clean_dash_lines bs :
  clean (map (fun b => lit "- " ++ b) bs) = map (fun b => 45 :: rstrip (32 :: b)) bs.
Proof.
  induction bs as [|b bs IH]; [done|].
  cbn [map]. rewrite clean_cons_keep by (by rewrite strip_dash).
  by rewrite strip_dash, IH.
Qed.

Lemma clean_lines_render subject opener bs cta :
  single_line subject -> single_line opener -> single_line cta ->
  Forall single_line bs ->
  clean_lines (render_response subject opener bs cta)
  = [lit "Subject:" ++ rstrip (32 :: subject);
     lit "Opener:" ++ rstrip (32 :: opener);
     lit "Bullets:"]
    ++ map (fun b => 45 :: rstrip (32 :: b)) bs
    ++ [lit "CTA:" ++ rstrip (32 :: cta)].
Proof.
  intros Hs Ho Hc Hbs. unfold clean_lines, render_response.
  rewrite app_assoc, splitlines_join.
  - rewrite !clean_app, clean_dash_lines.
    rewrite (clean_cons_keep (lit "Subject: " ++ subject)) by (by rewrite strip_Subject).
    rewrite (clean_cons_keep (lit "Opener: " ++ opener)) by (by rewrite strip_Opener).
    rewrite (clean_cons_keep (lit "Bullets:")) by reflexivity.
    rewrite (clean_cons_keep (lit "CTA: " ++ cta)) by (by rewrite strip_CTA).
    rewrite strip_Subject, strip_Opener, strip_CTA.
    by rewrite <- app_assoc.
  - apply Forall_app_2.
    + constructor; [apply single_line_app; [no_space|done]|].
      constructor; [apply single_line_app; [no_space|done]|].
      constructor; [no_space|constructor].
    + apply Forall_forall. intros l Hl.
      apply list_elem_of_In, in_map_iff in Hl as (b & <- & Hb).
      apply single_line_app; [no_space|].
      rewrite Forall_forall in Hbs. apply Hbs. by apply list_elem_of_In.
  - apply single_line_app; [no_space|done].
  - done.
Qed.

End ParserFormat.

(** Lookup of a literal key in a dictionary built by inserts. *)
Ltac map_lookup :=
  repeat first [ rewrite lookup_insert_eq | rewrite lookup_insert_ne by done ].

(** The scanner started from the initial loop variables always returns,
    and its result has the six fields. *)
Lemma parse_lines_ok (lines : list (list N)) :
  exists st, scan init lines = Ok st
    /\ dom (out st) = six_fields
    /\ parse_lines lines
       = Ok (<["bullet3" := slot (bullets st) 2]> (<["bullet2" := slot (bullets st) 1]>
            (<["bullet1" := slot (bullets st) 0]> (out st)))).
Proof.
  destruct (scan_ok init lines) as [st E]. exists st.
  split; [done|]. split.
  - eapply scan_dom; [|exact E]. apply out_init_dom.
  - by rewrite parse_lines_eq, E.
Qed.

Lemma scan_keeps_field (k : string) (m : list N) (lines : list (list N)) st st' :
  (forall s1 l s2, startswith m (lower l) = false -> step s1 l = Ok s2 ->
                   out s2 !! k = out s1 !! k) ->
  has_marker m lines = false -> scan st lines = Ok st' ->
  out st' !! k = out st !! k.
Proof.
  intros Hstep Hm E.
  apply (scan_invariant (fun s => out s !! k = out st !! k)
           (fun l => startswith m (lower l) = false))
    with (lines := lines) (st := st); auto using has_marker_false.
  intros s1 l s2 Hl H1 H2. rewrite <- H1. eauto.
Qed.

Lemma parse_lines_ignores (before after : list (list N)) (l : list N) :
  (forall st, line_matches st l = false) ->
  parse_lines (before ++ l :: after) = parse_lines (before ++ after).
Proof.
  intros H. unfold parse_lines. rewrite !scan_app.
  destruct (scan init before) as [st|e]; [|done].
  rewrite !bind_Ok. cbn [scan]. by rewrite (step_ignores st l (H st)), bind_Ok.
Qed.

Lemma parse_output_ok (text : list N) :
  exists d, parse_output text = Ok d /\ dom d = six_fields.
Proof.
  unfold parse_output.
  destruct (parse_lines_ok (clean_lines text)) as (st & E & Hd & ->).
  eexists. split; [reflexivity|].
  rewrite !dom_insert_L, Hd. unfold six_fields. set_solver.
Qed.

(** C6: [parse_output] returns on every input a dictionary with exactly
    the six fields; a field whose marker no line carries is the empty
    string (a response without a [CTA:] line has an empty call to action,
    one without a [Bullets:] line has three empty bullets); and an
    iteration on a line that matches no pattern leaves the loop variables
    as they are, so that a line matching no pattern in any state can be
    deleted without changing the result. *)
Theorem parse_output_total :
  (forall text : list N, exists d,
      parse_output text = Ok d
      /\ dom d = six_fields
      /\ (has_marker (lit "subject:") (clean_lines text) = false -> d !! "subject" = Some [])
      /\ (has_marker (lit "opener:") (clean_lines text) = false -> d !! "opener" = Some [])
      /\ (has_marker (lit "cta:") (clean_lines text) = false -> d !! "cta" = Some [])
      /\ (has_marker (lit "bullets:") (clean_lines text) = false ->
          d !! "bullet1" = Some [] /\ d !! "bullet2" = Some [] /\ d !! "bullet3" = Some []))
  /\ (forall st l, line_matches st l = false -> step st l = Ok st)
  /\ (forall (before after : list (list N)) (l : list N),
        (forall st, line_matches st l = false) ->
        parse_lines (before ++ l :: after) = parse_lines (before ++ after)).
Proof.
  split; [|split; [apply step_ignores|apply parse_lines_ignores]].
  intros text. unfold parse_output.
  destruct (parse_lines_ok (clean_lines text)) as (st & E & Hd & ->).
  eexists. split; [reflexivity|]. split.
  { rewrite !dom_insert_L, Hd. unfold six_fields. set_solver. }
  split; [|split; [|split]].
  - intros H. rewrite !lookup_insert_ne by done.
    by rewrite (scan_keeps_field "subject" _ _ _ _ step_keeps_subject H E).
  - intros H. rewrite !lookup_insert_ne by done.
    by rewrite (scan_keeps_field "opener" _ _ _ _ step_keeps_opener H E).
  - intros H. rewrite !lookup_insert_ne by done.
    by rewrite (scan_keeps_field "cta" _ _ _ _ step_keeps_cta H E).
  - intros H.
    assert (section st = None /\ bullets st = []) as [_ ->].
    { eapply (scan_invariant (fun s => section s = None /\ bullets s = [])
                (fun l => startswith (lit "bullets:") (lower l) = false));
        [| apply has_marker_false, H | | exact E]; [|done].
      intros s1 l s2 Hl H1 H2. by eapply step_keeps_no_bullets. }
    split; [|split]; by rewrite ?lookup_insert_ne, ?lookup_insert_eq by done.
Qed.

(** A response that stops after its opener: no call to action is parsed,
    and a stray line changes nothing. *)
Lemma parse_output_total_witness :
  (exists d, parse_output (join nl [lit "Subject: Hello"; lit "Opener: Hi there"]) = Ok d
             /\ d !! "cta" = Some [])
  /\ step init (lit "Kind regards") = Ok init.
Proof.
  split.
  - destruct (proj1 parse_output_total
                (join nl [lit "Subject: Hello"; lit "Opener: Hi there"]))
      as (d & E & _ & _ & _ & Hcta & _).
    exists d. split; [exact E|]. apply Hcta. vm_compute. reflexivity.
  - apply (proj1 (proj2 parse_output_total)). vm_compute. reflexivity.
Defined.

(** C2: on a response in the documented format whose bullet texts are
    [bs], bullet field [i] (for [i] below three) holds the text of the
    [i]-th bullet when there is one and the empty string otherwise, in
    encounter order; bullets after the third are in no field, since the
    result has the six fields only.  Subject, opener and call to action
    are recovered as well. *)
Theorem parse_output_documented_format (subject opener cta : list N) (bs : list (list N)) :
  single_line subject -> single_line opener -> single_line cta ->
  Forall single_line bs ->
  exists d,
    parse_output (render_response subject opener bs cta) = Ok d
    /\ dom d = six_fields
    /\ d !! "bullet1" = Some (bullet_text bs 0)
    /\ d !! "bullet2" = Some (bullet_text bs 1)
    /\ d !! "bullet3" = Some (bullet_text bs 2)
    /\ d !! "subject" = Some (strip subject)
    /\ d !! "opener" = Some (strip opener)
    /\ d !! "cta" = Some (strip cta).
Proof.
  intros Hs Ho Hc Hbs. unfold parse_output.
  rewrite clean_lines_render by done.
  destruct (parse_lines_ok
    ([lit "Subject:" ++ rstrip (32 :: subject);
      lit "Opener:" ++ rstrip (32 :: opener); lit "Bullets:"]
     ++ map (fun b => 45 :: rstrip (32 :: b)) bs
     ++ [lit "CTA:" ++ rstrip (32 :: cta)])) as (st & E & Hd & ->).
  cbn [app scan] in E.
  rewrite step_subject_line, bind_Ok, step_opener_line, bind_Ok,
    step_bullets_line, bind_Ok in E.
  rewrite scan_dash_lines in E by done.
  cbn [scan out bullets section] in E.
  rewrite step_cta_line, bind_Ok in E. injection E as <-.
  cbn [out bullets app].
  rewrite !strip_rstrip_space_cons by reflexivity.
  assert (forall i, slot (map strip bs) i = bullet_text bs i) as Hslot.
  { intros i. unfold slot, bullet_text. rewrite list_lookup_fmap.
    by destruct (bs !! i). }
  rewrite !Hslot.
  eexists. split; [reflexivity|]. split.
  { rewrite !dom_insert_L. unfold six_fields. set_solver. }
  repeat split; by rewrite ?lookup_insert_eq, ?lookup_insert_ne by done.
Qed.

Lemma parse_output_documented_format_witness :
  exists d,
    parse_output acme_response = Ok d
    /\ d !! "bullet1" = Some (lit "Auto-confirm online orders")
    /\ d !! "bullet2" = Some (lit "Daily sales summary email")
    /\ d !! "bullet3" = Some (lit "Low-stock alerts").
Proof.
  destruct (parse_output_documented_format
              (lit "Faster Orders For Acme")
              (lit "Noticed your weekend rush at the counter.")
              (lit "Got 15 min this week?")
              [lit "Auto-confirm online orders"; lit "Daily sales summary email";
               lit "Low-stock alerts"])
    as (d & E & _ & H1 & H2 & H3 & _).
  - repeat constructor.
  - repeat constructor.
  - repeat constructor.
  - repeat constructor.
  - exists d. split; [exact E|]. split; [exact H1|]. split; [exact H2|exact H3].
Defined.

Lemma strip_blank_dash (ws : list N) :
  forallb is_space ws = true -> strip (lit "-" ++ ws) = lit "-".
Proof.
  intros H. unfold strip. cbn [lit app lstrip].
  change (is_space (N_of_ascii "-")) with false. cbv iota.
  rewrite rstrip_cons_keep by reflexivity.
  by rewrite rstrip_all_space.
Qed.

(** C9: a line made of a dash and nothing but white space, met in bullet
    mode, is collected as a bullet with empty text.  It takes the next of
    the three slots: with [bullets st1] collected before it and [later]
    after it, the slots are filled from [bullets st1 ++ [""] ++ later]
    unfiltered, so each later bullet sits one slot further (or is dropped
    past the third). *)
Theorem blank_bullet_takes_slot (text : list N) (before after : list (list N))
    (ws : list N) (st1 : pstate) :
  splitlines text = before ++ [lit "-" ++ ws] ++ after ->
  forallb is_space ws = true ->
  scan init (clean before) = Ok st1 ->
  section st1 = Some "bullets" ->
  exists st2 later d,
    scan (PState (out st1) (bullets st1 ++ [[]]) (Some "bullets")) (clean after) = Ok st2
    /\ bullets st2 = bullets st1 ++ [[]] ++ later
    /\ parse_output text = Ok d
    /\ d !! "bullet1" = Some (slot (bullets st1 ++ [[]] ++ later) 0)
    /\ d !! "bullet2" = Some (slot (bullets st1 ++ [[]] ++ later) 1)
    /\ d !! "bullet3" = Some (slot (bullets st1 ++ [[]] ++ later) 2).
Proof.
  intros Htext Hws E1 Hsec.
  destruct (scan_ok (PState (out st1) (bullets st1 ++ [[]]) (Some "bullets"))
              (clean after)) as [st2 E2].
  destruct (scan_bullets_grow _ _ _ E2) as [later Hlater].
  cbn [bullets] in Hlater. rewrite <- app_assoc in Hlater.
  exists st2, later.
  assert (scan init (clean_lines text) = Ok st2) as E.
  { unfold clean_lines. rewrite Htext, !clean_app.
    rewrite clean_cons_keep by (by rewrite strip_blank_dash).
    rewrite strip_blank_dash by done.
    rewrite scan_app, E1, bind_Ok. cbn [clean app scan].
    change (lit "-") with (45 :: []).
    rewrite step_dash_line, bind_Ok by done.
    rewrite Hsec. exact E2. }
  unfold parse_output. rewrite parse_lines_eq, E, bind_Ok, Hlater.
  eexists. split; [exact E2|]. split; [done|]. split; [reflexivity|].
  repeat split; by map_lookup.
Qed.

(** "Bullets:", then a bare dash, then "- x": the bare dash takes slot
    one and "x" lands in slot two. *)
Lemma blank_bullet_takes_slot_witness :
  exists d,
    parse_output (join nl [lit "Bullets:"; lit "- "; lit "- x"]) = Ok d
    /\ d !! "bullet1" = Some []
    /\ d !! "bullet2" = Some (lit "x")
    /\ d !! "bullet3" = Some [].
Proof.
  destruct (blank_bullet_takes_slot
              (join nl [lit "Bullets:"; lit "- "; lit "- x"])
              [lit "Bullets:"] [lit "- x"] (lit " ")
              (PState out_init [] (Some "bullets")))
    as (st2 & later & d & E2 & Hb & E & H1 & H2 & H3).
  - vm_compute. reflexivity.
  - vm_compute. reflexivity.
  - vm_compute. reflexivity.
  - reflexivity.
  - assert (later = [lit "x"]) as ->.
    { vm_compute in E2. injection E2 as <-. cbn [bullets] in Hb.
      by injection Hb as <-. }
    exists d. split; [exact E|]. split; [exact H1|]. split; [exact H2|exact H3].
Defined.

(** ** The body composer *)

Section ComposerFacts.

Implicit Types (parsed d : gmap string (list N)) (company niche lang : list N).

Lemma body_lines_layout company niche parsed lang :
  body_lines company niche parsed lang
  = spec_body_layout (strip (get parsed "opener"))
      (strip (get parsed "bullet1")) (strip (get parsed "bullet2"))
      (strip (get parsed "bullet3")) (strip (get parsed "cta")) lang.
Proof.
  unfold body_lines, spec_body_layout, spec_heading, append_if.
  destruct (strip (get parsed "bullet1")), (strip (get parsed "bullet2")),
    (strip (get parsed "bullet3")), (strip (get parsed "cta")),
    (startswith (lit "ro") (lower lang)); reflexivity.
Qed.

Lemma value_after_colon_trimmed (l v : list N) :
  value_after_colon l = Ok v -> strip v = v.
Proof.
  unfold value_after_colon. destruct (index (split_colon_1 l) 1); [|done].
  rewrite bind_Ok. intros [= <-]. apply strip_idem.
Qed.

Lemma step_trimmed st l st' :
  trimmed_fields (out st) /\ Forall (fun b => strip b = b) (bullets st) ->
  step st l = Ok st' ->
  trimmed_fields (out st') /\ Forall (fun b => strip b = b) (bullets st').
Proof.
  intros [Ho Hb] E. unfold step in E.
  repeat match type of E with
         | context [if ?c then _ else _] => destruct c eqn:?
         end;
  repeat match type of E with
         | context [value_after_colon ?l] =>
             let V := fresh "V" in destruct (value_after_colon l) eqn:V
         end;
  cbn in E; try discriminate E; injection E as <-; cbn [out bullets];
  try (split; [|done]; apply map_Forall_insert_2; [|done];
       by eapply value_after_colon_trimmed);
  try done.
  split; [done|]. apply Forall_app_2; [done|].
  constructor; [apply strip_idem|constructor].
Qed.

Lemma slot_trimmed (bs : list (list N)) i :
  Forall (fun b => strip b = b) bs -> strip (slot bs i) = slot bs i.
Proof.
  intros H. unfold slot. destruct (bs !! i) as [b|] eqn:E; [|done].
  cbn. eapply Forall_lookup_1 in H; eauto.
Qed.

(** Every field the parser returns is free of surrounding white space. *)
Lemma parse_output_trimmed (text : list N) d :
  parse_output text = Ok d -> trimmed_fields d.
Proof.
  unfold parse_output. rewrite parse_lines_eq.
  destruct (scan init (clean_lines text)) as [st|] eqn:E; [|done].
  rewrite bind_Ok. intros [= <-].
  assert (trimmed_fields (out st) /\ Forall (fun b => strip b = b) (bullets st))
    as [Ho Hb].
  { eapply (scan_invariant
              (fun s => trimmed_fields (out s)
                        /\ Forall (fun b => strip b = b) (bullets s))
              (fun _ => True)); [| |split|exact E].
    - intros s1 l s2 _ H1 H2. eapply step_trimmed; eauto.
    - by apply Forall_forall.
    - unfold init, out_init. cbn [out].
      repeat (apply map_Forall_insert_2; [reflexivity|]).
      apply map_Forall_empty.
    - constructor. }
  repeat (apply map_Forall_insert_2; [by apply slot_trimmed|]). done.
Qed.

Lemma trimmed_get d k : trimmed_fields d -> strip (get d k) = get d k.
Proof.
  intros H. unfold get. destruct (d !! k) as [v|] eqn:E; [|done].
  cbn. by apply (H k v).
Qed.


End ComposerFacts.


Lemma parse_acme : parse_output acme_response = Ok acme_parsed.
Proof. vm_compute. reflexivity. Qed.


(** C5, as stated, fails: "Romanian" is not "ro" in any case, and it
    selects the Romanian heading. *)
Lemma heading_ro_only_counterexample :
  lower (lit "Romanian") <> lit "ro"
  /\ body_lines [] [] acme_parsed (lit "Romanian") !! 2%nat = Some heading_ro
  /\ heading_ro <> heading_en.
Proof. split; [|split]; vm_compute; congruence. Qed.

(** C5, amended: when the body has a bullet block, its heading is the
    Romanian one exactly when the lower-case form of [lang] starts with
    "ro", and the English one otherwise; so "ro" in any case selects the
    Romanian heading, and so does every longer tag with that prefix. *)
Theorem heading_by_ro_prefix (company niche lang : list N)
    (parsed : gmap string (list N)) :
  shows_bullets parsed = true ->
  body_lines company niche parsed lang !! 2%nat
  = Some (if startswith (lit "ro") (lower lang) then heading_ro else heading_en)
  /\ (lower lang = lit "ro" ->
      body_lines company niche parsed lang !! 2%nat = Some heading_ro)
  /\ (startswith (lit "ro") (lower lang) = false ->
      body_lines company niche parsed lang !! 2%nat = Some heading_en).
Proof.
  intros H.
  assert (body_lines company niche parsed lang !! 2%nat
          = Some (if startswith (lit "ro") (lower lang)
                  then heading_ro else heading_en)) as E.
  { unfold shows_bullets in H. unfold body_lines, append_if. rewrite H.
    destruct (startswith (lit "ro") (lower lang)),
      (truthy (strip (get parsed "bullet1"))),
      (truthy (strip (get parsed "bullet2"))),
      (truthy (strip (get parsed "bullet3"))),
      (truthy (strip (get parsed "cta"))); reflexivity. }
  split; [exact E|]. split.
  - intros Hro. rewrite E, Hro. reflexivity.
  - intros Hro. rewrite E, Hro. reflexivity.
Qed.

Lemma heading_by_ro_prefix_witness :
  body_lines [] [] acme_parsed (lit "RO") !! 2%nat = Some heading_ro
  /\ body_lines [] [] acme_parsed (lit "ro-RO") !! 2%nat = Some heading_ro
  /\ body_lines [] [] acme_parsed (lit "English") !! 2%nat = Some heading_en.
Proof.
  split; [|split].
  - apply (heading_by_ro_prefix [] [] (lit "RO") acme_parsed); reflexivity.
  - rewrite (proj1 (heading_by_ro_prefix [] [] (lit "ro-RO") acme_parsed eq_refl)).
    reflexivity.
  - apply (heading_by_ro_prefix [] [] (lit "English") acme_parsed); reflexivity.
Defined.

(** ** The main loop *)

Section MainLoop.

Variables (args : Args) (client : Client).

Implicit Types (row : gmap string (option (list N))) (st : state)
  (parsed : gmap string (list N)) (u : Usage).

Lemma output_record_dom company niche website lang parsed body u c :
  dom parsed = six_fields ->
  dom (output_record company niche website lang parsed body u c)
  ⊆ list_to_set fieldnames.
Proof.
  intros H. unfold output_record.
  rewrite !dom_insert_L, dom_union_L, dom_fmap_L, !dom_insert_L, H.
  unfold six_fields, fieldnames. cbn [list_to_set]. set_solver.
Qed.

Lemma record_usage_cells row parsed u cost :
  record_usage (record_cells args row parsed u cost) = u.
Proof.
  unfold record_usage, int_at, record_cells.
  change (map ?f fieldnames !! 11%nat) with (Some (f "prompt_tokens")).
  change (map ?f fieldnames !! 12%nat) with (Some (f "completion_tokens")).
  change (map ?f fieldnames !! 13%nat) with (Some (f "total_tokens")).
  cbv beta. unfold output_record. map_lookup. by destruct u.
Qed.

Lemma record_cells_lang row parsed u cost :
  dom parsed = six_fields ->
  record_cells args row parsed u cost !! 3%nat
  = Some (CStr (effective_lang args row))
  /\ record_cells args row parsed u cost !! 10%nat
     = Some (CStr (build_email_body (row_field row "company_name")
                     (row_field row "niche") parsed (effective_lang args row))).
Proof.
  intros Hd. unfold record_cells.
  change (map ?f fieldnames !! 3%nat) with (Some (f "lang")).
  change (map ?f fieldnames !! 10%nat) with (Some (f "email_body")).
  cbv beta. unfold output_record. map_lookup.
  rewrite lookup_union_r.
  - by map_lookup.
  - rewrite lookup_fmap. apply fmap_None, not_elem_of_dom.
    rewrite Hd. unfold six_fields. set_solver.
Qed.

Lemma loop_body_skip row st :
  valid_row row = false ->
  loop_body args client row st
  = (Ok tt, MkState (total st) (trace st ++ [EPrint (PSkipping row)])).
Proof.
  unfold valid_row, loop_body. intros H.
  apply andb_false_iff in H as [-> | ->]; [done|].
  by rewrite orb_true_r.
Qed.

Lemma sleep_ms_cases ms st :
  sleep_ms ms st
  = if pause_accepted ms
    then (Ok tt, MkState (total st) (trace st ++ [ESleep ms]))
    else (Raise OverflowError, st).
Proof.
  unfold sleep_ms, pause_accepted, of_int, mbind, M_bind, lift, emit, raise.
  destruct (nearest ms); try reflexivity; by destruct (sleep_accepts _).
Qed.

(** [call_model] sends its request, then returns what it reads off the
    reply or raises; the running totals are not touched. *)
Lemma call_model_eq company niche website lang st :
  call_model client company niche website lang st
  = (resp ← client (calls_made (trace st)) (request_for company niche website lang);
     read_response resp,
     MkState (total st)
       (trace st ++ [ECall (calls_made (trace st))
                       (request_for company niche website lang)])).
Proof.
  unfold call_model, mbind at 1 2 3, M_bind, get_trace, emit, lift. cbn [trace total].
  destruct (client _ _) as [resp|e]; [|done].
  rewrite bind_Ok. by destruct (read_response resp).
Qed.

Lemma call_model_state company niche website lang st r st1 :
  call_model client company niche website lang st = (r, st1) ->
  st1 = MkState (total st)
          (trace st ++ [ECall (calls_made (trace st))
                          (request_for company niche website lang)]).
Proof. rewrite call_model_eq. by intros [= _ <-]. Qed.

Lemma call_model_ok company niche website lang st resp text u :
  client (calls_made (trace st)) (request_for company niche website lang) = Ok resp ->
  read_response resp = Ok (text, u) ->
  call_model client company niche website lang st
  = (Ok (text, u),
     MkState (total st)
       (trace st ++ [ECall (calls_made (trace st))
                       (request_for company niche website lang)])).
Proof. intros Hc Hr. by rewrite call_model_eq, Hc, bind_Ok, Hr. Qed.

Lemma call_model_refused company niche website lang st e :
  client (calls_made (trace st)) (request_for company niche website lang) = Raise e ->
  call_model client company niche website lang st
  = (Raise e,
     MkState (total st)
       (trace st ++ [ECall (calls_made (trace st))
                       (request_for company niche website lang)])).
Proof. intros Hc. by rewrite call_model_eq, Hc. Qed.

(** An iteration on a row with company and niche, once [call_model] has
    returned: the message is parsed, the totals are updated, and then
    the cost, the write and the pause can each end the iteration. *)
Lemma loop_body_cases row st text u st1 :
  valid_row row = true ->
  call_model client (row_field row "company_name") (row_field row "niche")
    (row_field row "website") (effective_lang args row) st = (Ok (text, u), st1) ->
  exists parsed,
    parse_output text = Ok parsed
    /\ loop_body args client row st
       = match est_cost u with
         | Raise e =>
             (Raise e,
              MkState (add_usage (total st) u)
                (trace st ++ [ECall (calls_made (trace st)) (row_request args row)]))
         | Ok cost =>
             if forallb cell_encodable (record_cells args row parsed u cost) then
               if pause_accepted (Z.max (delay_ms args) 0) then
                 (Ok tt,
                  MkState (add_usage (total st) u)
                    (trace st ++ row_events args row (calls_made (trace st))
                                   parsed u cost))
               else
                 (Raise OverflowError,
                  MkState (add_usage (total st) u)
                    (trace st
                     ++ [ECall (calls_made (trace st)) (row_request args row);
                         EWriteRow (record_cells args row parsed u cost)]))
             else
               (Raise UnicodeEncodeError,
                MkState (add_usage (total st) u)
                  (trace st ++ [ECall (calls_made (trace st)) (row_request args row)]))
         end.
Proof.
  intros Hv Hcall.
  destruct (parse_output_ok text) as (parsed & Hp & Hd).
  exists parsed. split; [done|].
  pose proof (call_model_state _ _ _ _ _ _ _ Hcall) as ->.
  unfold valid_row in Hv. apply andb_true_iff in Hv as [Hv1 Hv2].
  unfold loop_body. rewrite Hv1, Hv2. cbn [negb orb].
  unfold mbind, M_bind. rewrite Hcall.
  unfold lift, get_total, set_total. cbn [trace total]. rewrite Hp.
  destruct (est_cost u) as [cost|e]; [|done].
  unfold writerow. rewrite bool_decide_eq_true_2 by by apply output_record_dom.
  change (map (fun k => default (CStr []) (output_record _ _ _ _ _ _ _ _ !! k)) fieldnames)
    with (record_cells args row parsed u cost).
  destruct (forallb cell_encodable _); [|done].
  unfold emit. cbn [trace total]. rewrite sleep_ms_cases. cbn [trace total].
  destruct (pause_accepted _); [|by rewrite <- !app_assoc].
  unfold row_events. by rewrite <- !app_assoc.
Qed.

Lemma loop_body_ok row st text u st1 cost parsed :
  valid_row row = true ->
  call_model client (row_field row "company_name") (row_field row "niche")
    (row_field row "website") (effective_lang args row) st = (Ok (text, u), st1) ->
  est_cost u = Ok cost ->
  parse_output text = Ok parsed ->
  forallb cell_encodable (record_cells args row parsed u cost) = true ->
  pause_accepted (Z.max (delay_ms args) 0) = true ->
  loop_body args client row st
  = (Ok tt, MkState (add_usage (total st) u)
              (trace st ++ row_events args row (calls_made (trace st))
                             parsed u cost)).
Proof.
  intros Hv Hcall He Hp Henc Hpause.
  destruct (loop_body_cases row st text u st1 Hv Hcall) as (parsed' & Hp' & ->).
  rewrite Hp in Hp'. injection Hp' as <-.
  by rewrite He, Henc, Hpause.
Qed.

Lemma loop_body_raise row st e st1 :
  valid_row row = true ->
  call_model client (row_field row "company_name") (row_field row "niche")
    (row_field row "website") (effective_lang args row) st = (Raise e, st1) ->
  loop_body args client row st
  = (Raise e,
     MkState (total st)
       (trace st ++ [ECall (calls_made (trace st))
                       (request_for (row_field row "company_name")
                          (row_field row "niche") (row_field row "website")
                          (effective_lang args row))])).
Proof.
  intros Hv Hcall.
  pose proof (call_model_state _ _ _ _ _ _ _ Hcall) as ->.
  unfold valid_row in Hv. apply andb_true_iff in Hv as [Hv1 Hv2].
  unfold loop_body. rewrite Hv1, Hv2. cbn [negb orb].
  unfold mbind at 1, M_bind at 1. by rewrite Hcall.
Qed.

(** An iteration that returns has skipped the row or has written its one
    record. *)
Lemma loop_body_inv row st st' :
  loop_body args client row st = (Ok tt, st') ->
  (valid_row row = false
   /\ st' = MkState (total st) (trace st ++ [EPrint (PSkipping row)]))
  \/ (valid_row row = true
      /\ exists parsed u cost,
           st' = MkState (add_usage (total st) u)
                   (trace st ++ row_events args row (calls_made (trace st))
                                  parsed u cost)).
Proof.
  destruct (valid_row row) eqn:Hv.
  - intros H. right. split; [done|].
    destruct (call_model client (row_field row "company_name") (row_field row "niche")
                (row_field row "website") (effective_lang args row) st)
      as [[[text u]|e] st1] eqn:Hcall.
    2:{ rewrite (loop_body_raise _ _ _ _ Hv Hcall) in H. discriminate H. }
    destruct (loop_body_cases row st text u st1 Hv Hcall) as (parsed & _ & E).
    rewrite E in H. destruct (est_cost u) as [cost|e]; [|discriminate H].
    destruct (forallb cell_encodable _); [|discriminate H].
    destruct (pause_accepted _); [|discriminate H].
    injection H as <-. eauto.
  - intros H. left. split; [done|].
    rewrite loop_body_skip in H by done. by injection H as <-.
Qed.

Lemma written_app tr1 tr2 : written (tr1 ++ tr2) = written tr1 ++ written tr2.
Proof. apply omap_app. Qed.

Lemma skipped_app tr1 tr2 : skipped (tr1 ++ tr2) = skipped tr1 ++ skipped tr2.
Proof. apply omap_app. Qed.

Lemma add_usage_assoc (a b c : Usage) :
  add_usage (add_usage a b) c = add_usage a (add_usage b c).
Proof. unfold add_usage. cbn. f_equal; lia. Qed.

Lemma add_usage_zero (a : Usage) : add_usage a (MkUsage 0 0 0) = a.
Proof. destruct a. unfold add_usage. cbn. f_equal; lia. Qed.

Lemma sum_usage_app us1 us2 :
  sum_usage (us1 ++ us2) = add_usage (sum_usage us1) (sum_usage us2).
Proof.
  induction us1 as [|x us1 IH].
  - cbn [app]. destruct (sum_usage us2) as [p c t].
    unfold add_usage. cbn. f_equal; lia.
  - cbn [app]. change (sum_usage (x :: ?l)) with (add_usage x (sum_usage l)).
    by rewrite IH, add_usage_assoc.
Qed.

Lemma written_row_events row n parsed u cost :
  written (row_events args row n parsed u cost) = [record_cells args row parsed u cost].
Proof. reflexivity. Qed.

Lemma skipped_row_events row n parsed u cost :
  skipped (row_events args row n parsed u cost) = [].
Proof. reflexivity. Qed.

(** A loop that runs to its end: what it appended to the trace, and what
    it added to the running total. *)
Lemma for_each_ok rows st st' :
  for_each (loop_body args client) rows st = (Ok tt, st') ->
  exists evs,
    trace st' = trace st ++ evs
    /\ total st' = add_usage (total st) (sum_usage (map record_usage (written evs)))
    /\ length (written evs) = length (filter (fun r => valid_row r = true) rows)
    /\ skipped evs = filter (fun r => valid_row r = false) rows.
Proof.
  revert st. induction rows as [|row rows IH]; intros st H.
  - cbn in H. injection H as <-. exists [].
    rewrite app_nil_r. cbn. by rewrite add_usage_zero.
  - cbn [for_each] in H. unfold mbind, M_bind in H.
    destruct (loop_body args client row st) as [[[]|e] st1] eqn:E; [|done].
    destruct (IH _ H) as (evs & Ht & Htot & Hw & Hs).
    apply loop_body_inv in E as [[Hv ->]|[Hv (parsed & u & cost & ->)]];
      cbn [trace total] in *.
    + exists (EPrint (PSkipping row) :: evs).
      rewrite <- app_assoc in Ht. split; [done|].
      rewrite filter_cons_False by (by rewrite Hv).
      rewrite filter_cons_True by done.
      change (EPrint (PSkipping row) :: evs) with ([EPrint (PSkipping row)] ++ evs).
      rewrite skipped_app, written_app. cbn. by rewrite Hs.
    + exists (row_events args row (calls_made (trace st)) parsed u cost ++ evs).
      rewrite <- app_assoc in Ht. split; [done|].
      rewrite filter_cons_True by done.
      rewrite filter_cons_False by (by rewrite Hv).
      rewrite skipped_app, written_app, written_row_events, skipped_row_events.
      cbn [app map length]. rewrite record_usage_cells.
      change (sum_usage (u :: ?l)) with (add_usage u (sum_usage l)).
      rewrite Htot, add_usage_assoc. split; [done|]. split; [|done].
      by rewrite Hw.
Qed.

End MainLoop.

(** C1, as stated, fails: the Acme row has a company and a niche, yet
    when the completion call raises the iteration writes no record for
    it (and the exception ends the loop). *)
Lemma one_record_per_valid_row_counterexample :
  valid_row acme_row = true
  /\ exists st',
       loop_body sample_args failing_client acme_row state0
       = (Raise (ServiceError 429), st')
       /\ written (trace st') = [].
Proof.
  split; [vm_compute; reflexivity|].
  eexists. split.
  - eapply loop_body_raise; [reflexivity|].
    apply call_model_refused. reflexivity.
  - reflexivity.
Qed.

(** C1, amended: a row whose company or niche is empty or missing once
    trimmed gets no record, is reported as skipped, and the loop goes on
    with the next row; a row with both gets exactly one record, and the
    loop goes on, when the generation call returns a text and counts,
    the cost of the counts can be computed, every text of the record can
    be encoded in UTF-8 and the pause after the row is taken; when the
    generation call raises, because the service turns the request down
    or because its reply cannot be read, the loop ends there with no
    record for the row. *)
Theorem row_skipped_or_one_record (args : Args) (client : Client)
    (row : gmap string (option (list N)))
    (rest : list (gmap string (option (list N)))) (st : state) :
  let n := calls_made (trace st) in
  let req := request_for (row_field row "company_name") (row_field row "niche")
               (row_field row "website") (effective_lang args row) in
  let call := call_model client (row_field row "company_name") (row_field row "niche")
                (row_field row "website") (effective_lang args row) in
  (valid_row row = false ->
     for_each (loop_body args client) (row :: rest) st
     = for_each (loop_body args client) rest
         (MkState (total st) (trace st ++ [EPrint (PSkipping row)]))
     /\ written [EPrint (PSkipping row)] = []
     /\ skipped [EPrint (PSkipping row)] = [row])
  /\ (valid_row row = true ->
      forall text u st1 cost,
        call st = (Ok (text, u), st1) ->
        est_cost u = Ok cost ->
        (forall parsed, parse_output text = Ok parsed ->
           forallb cell_encodable (record_cells args row parsed u cost) = true) ->
        pause_accepted (Z.max (delay_ms args) 0) = true ->
        exists parsed,
          parse_output text = Ok parsed
          /\ for_each (loop_body args client) (row :: rest) st
             = for_each (loop_body args client) rest
                 (MkState (add_usage (total st) u)
                    (trace st ++ row_events args row n parsed u cost))
          /\ written (row_events args row n parsed u cost)
             = [record_cells args row parsed u cost]
          /\ skipped (row_events args row n parsed u cost) = [])
  /\ (valid_row row = true ->
      forall e st1, call st = (Raise e, st1) ->
        for_each (loop_body args client) (row :: rest) st
        = (Raise e, MkState (total st) (trace st ++ [ECall n req]))
        /\ written [ECall n req] = []).
Proof.
  cbv zeta. split; [|split].
  - intros Hv. cbn [for_each]. unfold mbind, M_bind.
    by rewrite loop_body_skip.
  - intros Hv text u st1 cost Hcall He Henc Hpause.
    destruct (parse_output_ok text) as (parsed & Hp & _).
    exists parsed. split; [done|]. split; [|done].
    cbn [for_each]. unfold mbind, M_bind.
    by rewrite (loop_body_ok args client row st text u st1 cost parsed
                  Hv Hcall He Hp (Henc parsed Hp) Hpause).
  - intros Hv e st1 Hcall. split; [|done].
    cbn [for_each]. unfold mbind, M_bind.
    by rewrite (loop_body_raise args client row st e st1 Hv Hcall).
Qed.

Lemma row_skipped_or_one_record_witness :
  for_each (loop_body sample_args acme_client) [blank_row] state0
  = (Ok tt, MkState (MkUsage 0 0 0) [EPrint (PSkipping blank_row)])
  /\ (exists cost,
        est_cost (MkUsage 120 80 200) = Ok cost
        /\ for_each (loop_body sample_args acme_client) [acme_row] state0
           = (Ok tt, MkState (MkUsage 120 80 200)
                       (row_events sample_args acme_row 0 acme_parsed
                          (MkUsage 120 80 200) cost)))
  /\ for_each (loop_body sample_args (fun _ _ => Ok (MkResponse [] None)))
       [acme_row; acme_row] state0
     = (Raise IndexError,
        MkState (MkUsage 0 0 0) [ECall 0 (row_request sample_args acme_row)]).
Proof.
  split; [|split].
  - apply (proj1 (row_skipped_or_one_record sample_args acme_client blank_row [] state0)).
    vm_compute. reflexivity.
  - pose (cost := match est_cost (MkUsage 120 80 200) with
                  | Ok c => c
                  | Raise _ => S754_nan
                  end).
    assert (est_cost (MkUsage 120 80 200) = Ok cost) as He
      by (vm_compute; reflexivity).
    exists cost. split; [exact He|].
    destruct (proj1 (proj2 (row_skipped_or_one_record sample_args acme_client
                              acme_row [] state0))
                eq_refl acme_response (MkUsage 120 80 200)
                (MkState (MkUsage 0 0 0) [ECall 0 (row_request sample_args acme_row)])
                cost)
      as (parsed & Hp & E & _).
    + vm_compute. reflexivity.
    + exact He.
    + intros parsed Hp. rewrite parse_acme in Hp. injection Hp as <-.
      vm_compute. reflexivity.
    + vm_compute. reflexivity.
    + rewrite parse_acme in Hp. injection Hp as <-. exact E.
  - apply (proj2 (proj2 (row_skipped_or_one_record sample_args
                           (fun _ _ => Ok (MkResponse [] None))
                           acme_row [acme_row] state0))
             eq_refl IndexError
             (MkState (MkUsage 0 0 0) [ECall 0 (row_request sample_args acme_row)])).
    vm_compute. reflexivity.
Defined.

Lemma sum_usage_fields (us : list Usage) :
  sum_usage us = MkUsage (sumZ (map prompt_tokens us))
                   (sumZ (map completion_tokens us)) (sumZ (map total_tokens us)).
Proof.
  induction us as [|u us IH]; [done|].
  change (sum_usage (u :: us)) with (add_usage u (sum_usage us)).
  rewrite IH. reflexivity.
Qed.

(** A run of [main] that returns: the rows it read, the state its loop
    ended in, and the lines it printed last. *)
Lemma main_ok (w : World) (args : Args) (client : Client) (st st' : state) :
  main w args client st = (Ok tt, st') ->
  exists rows outpath st1 grand,
    "OPENAI_API_KEY" ∈ environ w
    /\ input_rows w (infile args) = Some rows
    /\ for_each (loop_body args client) rows
         (MkState (MkUsage 0 0 0)
            (trace st ++ [EMkdir (lit "outputs"); EOpenWrite outpath;
                          EWriteRow (map (fun k => CStr (lit k)) fieldnames)]))
       = (Ok tt, st1)
    /\ est_cost (total st1) = Ok grand
    /\ st' = MkState (total st1)
               (trace st1
                ++ [EPrint (PSaved outpath);
                    EPrint (PTotals (prompt_tokens (total st1))
                              (completion_tokens (total st1))
                              (total_tokens (total st1)));
                    EPrint (PCost (format_6f grand) MODEL)]).
Proof.
  unfold main. case_bool_decide as Hkey; [done|].
  destruct (input_rows w (infile args)) as [rows|] eqn:Hin; [|done].
  unfold mbind, M_bind, emit, set_total, writeheader, get_total, lift, emit.
  cbn [trace total].
  set (outpath := match outfile args with
                  | Some o => str_or o _
                  | None => _
                  end).
  rewrite <- !app_assoc. cbn [app].
  destruct (for_each (loop_body args client) rows _) as [[[]|e] st1] eqn:E; [|done].
  destruct (est_cost (total st1)) as [grand|e] eqn:He; [|done].
  intros [= <-].
  exists rows, outpath, st1, grand.
  split; [done|]. split; [done|]. split; [exact E|]. split; [done|].
  by rewrite <- !app_assoc.
Qed.

(** C7: when a run reaches its end, the totals it prints are the sums,
    column by column, of the usage columns of the records it wrote, one
    record per processed row (the header and the skipped rows add
    nothing), and the printed cost is the rendering of [est_cost] of
    that summed usage. *)
Theorem reported_totals_are_sums (w : World) (args : Args) (client : Client)
    (st' : state) :
  main w args client state0 = (Ok tt, st') ->
  exists rows front outpath grand,
    let us := map record_usage (written (trace st')) in
    let p := sumZ (map prompt_tokens us) in
    let c := sumZ (map completion_tokens us) in
    let t := sumZ (map total_tokens us) in
    input_rows w (infile args) = Some rows
    /\ trace st' = front ++ [EPrint (PSaved outpath); EPrint (PTotals p c t);
                             EPrint (PCost (format_6f grand) MODEL)]
    /\ est_cost (MkUsage p c t) = Ok grand
    /\ length (written (trace st'))
       = S (length (filter (fun r => valid_row r = true) rows))
    /\ skipped (trace st') = filter (fun r => valid_row r = false) rows.
Proof.
  intros H.
  destruct (main_ok _ _ _ _ _ H) as (rows & outpath & st1 & grand & _ & Hin & E & He & ->).
  destruct (for_each_ok _ _ _ _ _ E) as (evs & Ht & Htot & Hw & Hs).
  cbn [trace total state0 app] in Ht, Htot |- *.
  assert (written (trace st1)
          = map (fun k => CStr (lit k)) fieldnames :: written evs) as Hwr.
  { rewrite Ht. reflexivity. }
  assert (sum_usage (map record_usage (written (trace st1))) = total st1) as Hsum.
  { rewrite Hwr, Htot. cbn [map].
    change (sum_usage (?u :: ?l)) with (add_usage u (sum_usage l)).
    destruct (sum_usage (map record_usage (written evs))). reflexivity. }
  rewrite sum_usage_fields in Hsum.
  exists rows, (trace st1), outpath, grand.
  rewrite written_app, skipped_app. cbn [written skipped omap].
  rewrite !app_nil_r, Hsum.
  pose proof (f_equal prompt_tokens Hsum) as Hp.
  pose proof (f_equal completion_tokens Hsum) as Hc.
  pose proof (f_equal total_tokens Hsum) as Htt.
  cbn [prompt_tokens completion_tokens total_tokens] in Hp, Hc, Htt.
  rewrite Hp, Hc, Htt.
  split; [done|]. split; [done|]. split; [done|]. split.
  - rewrite Hwr. cbn [length]. by rewrite Hw.
  - rewrite Ht. exact Hs.
Qed.

Lemma reported_totals_are_sums_witness :
  exists st' front outpath cost,
    main sample_world sample_args acme_client state0 = (Ok tt, st')
    /\ trace st' = front ++ [EPrint (PSaved outpath); EPrint (PTotals 240 160 400);
                             EPrint (PCost cost MODEL)]
    /\ length (written (trace st')) = 3%nat
    /\ skipped (trace st') = [blank_row].
Proof.
  pose (st' := snd (main sample_world sample_args acme_client state0)).
  assert (main sample_world sample_args acme_client state0 = (Ok tt, st')) as H
    by (vm_compute; reflexivity).
  destruct (reported_totals_are_sums _ _ _ _ H)
    as (rows & front & outpath & grand & Hin & Ht & _ & Hw & Hs).
  assert (rows = [acme_row; blank_row; acme_row]) as ->.
  { assert (Some rows = Some [acme_row; blank_row; acme_row]) as E
      by (rewrite <- Hin; reflexivity).
    by injection E. }
  exists st', front, outpath, (format_6f grand).
  split; [exact H|]. split; [exact Ht|]. split; [exact Hw|exact Hs].
Defined.

(** C8: without the credential in the environment, or without the input
    file, [main] exits with [SystemExit] and a message, and the state is
    the one it started in: no directory made, no file opened, no row
    read, no request sent, nothing written. *)
Theorem main_fatal_before_any_work (w : World) (args : Args) (client : Client)
    (st : state) :
  "OPENAI_API_KEY" ∉ environ w \/ input_rows w (infile args) = None ->
  exists msg, main w args client st = (Raise (SystemExit msg), st).
Proof.
  intros H. unfold main. case_bool_decide as Hkey.
  - eexists. reflexivity.
  - destruct H as [H|H]; [done|]. rewrite H. eexists. reflexivity.
Qed.

Lemma main_fatal_before_any_work_witness :
  (exists msg,
     main (MkWorld ∅ (input_rows sample_world) []) sample_args acme_client state0
     = (Raise (SystemExit msg), state0))
  /\ (exists msg,
        main sample_world (MkArgs (lit "missing.csv") None (lit "English") 600)
          acme_client state0
        = (Raise (SystemExit msg), state0)).
Proof.
  split.
  - apply main_fatal_before_any_work. left. set_solver.
  - apply main_fatal_before_any_work. right. vm_compute. reflexivity.
Defined.

(** C10, as stated, fails for a default language given with surrounding
    white space: a white-space-only [lang] yields the default untrimmed,
    which is not what a missing column yields, and an empty [lang] yields
    the trimmed default, which is not the default. *)
Lemma effective_lang_counterexample :
  let args := MkArgs [] None (lit " English ") 0 in
  effective_lang args (<["lang" := Some (lit "  ")]> ∅) = lit " English "
  /\ strip (lit " English ") <> lit " English "
  /\ effective_lang args ∅ = lit "English"
  /\ effective_lang args (<["lang" := Some []]> ∅) = lit "English"
  /\ lit "English" <> default_lang args.
Proof. cbv zeta. repeat split; vm_compute; congruence. Qed.

Lemma effective_lang_blank (args : Args) (row : gmap string (option (list N)))
    (v : list N) :
  row !! "lang" = Some (Some v) -> forallb is_space v = true ->
  strip (default_lang args) = default_lang args ->
  effective_lang args row = default_lang args.
Proof.
  intros Hrow Hv Hd. unfold effective_lang, row_get, opt_or. rewrite Hrow.
  unfold str_or at 2. destruct v as [|c v]; cbn [truthy].
  - rewrite Hd. unfold str_or. by destruct (default_lang args).
  - unfold strip. rewrite (lstrip_all_space _ Hv). reflexivity.
Qed.

Lemma effective_lang_missing (args : Args) (row : gmap string (option (list N))) :
  row_get row "lang" = None ->
  strip (default_lang args) = default_lang args ->
  effective_lang args row = default_lang args.
Proof.
  intros Hrow Hd. unfold effective_lang, opt_or. rewrite Hrow, Hd.
  unfold str_or. by destruct (default_lang args).
Qed.

(** C10, amended: when the default language has no surrounding white
    space, a row whose [lang] is present but empty or made of white space
    gets the default as its language, as a row without the column does;
    that language is trimmed, and it is the one in the request sent, in
    the body composed and in the [lang] column of the record written. *)
Theorem blank_lang_falls_back (args : Args) (client : Client)
    (row : gmap string (option (list N))) (v : list N) (st : state) :
  row !! "lang" = Some (Some v) -> forallb is_space v = true ->
  strip (default_lang args) = default_lang args ->
  effective_lang args row = default_lang args
  /\ effective_lang args (delete "lang" row) = default_lang args
  /\ strip (effective_lang args row) = effective_lang args row
  /\ (valid_row row = true ->
      forall resp text u cost,
        client (calls_made (trace st))
          (request_for (row_field row "company_name") (row_field row "niche")
             (row_field row "website") (default_lang args)) = Ok resp ->
        read_response resp = Ok (text, u) -> est_cost u = Ok cost ->
        (forall parsed, parse_output text = Ok parsed ->
           forallb cell_encodable (record_cells args row parsed u cost) = true) ->
        pause_accepted (Z.max (delay_ms args) 0) = true ->
        exists parsed cells,
          parse_output text = Ok parsed
          /\ loop_body args client row st
             = (Ok tt,
                MkState (add_usage (total st) u)
                  (trace st
                   ++ [ECall (calls_made (trace st))
                         (request_for (row_field row "company_name")
                            (row_field row "niche") (row_field row "website")
                            (default_lang args));
                       EWriteRow cells;
                       ESleep (Z.max (delay_ms args) 0)]))
          /\ cells !! 3%nat = Some (CStr (default_lang args))
          /\ cells !! 10%nat
             = Some (CStr (build_email_body (row_field row "company_name")
                             (row_field row "niche") parsed (default_lang args)))).
Proof.
  intros Hrow Hv Hd.
  pose proof (effective_lang_blank args row v Hrow Hv Hd) as E.
  split; [exact E|]. split.
  { apply effective_lang_missing; [|done].
    unfold row_get. by rewrite lookup_delete_eq. }
  split; [by rewrite E|].
  intros Hvalid resp text u cost Hc Hr He Henc Hpause.
  rewrite <- E in Hc.
  destruct (parse_output_ok text) as (parsed & Hp & Hdom).
  pose proof (loop_body_ok args client row st text u _ cost parsed Hvalid
                (call_model_ok client _ _ _ _ st resp text u Hc Hr)
                He Hp (Henc parsed Hp) Hpause) as Hrun.
  exists parsed, (record_cells args row parsed u cost).
  split; [done|]. split.
  { rewrite Hrun. unfold row_events. by rewrite E. }
  rewrite <- E. by apply record_cells_lang.
Qed.

(** ** The cost estimate *)

Section FloatFacts.

Open Scope Z_scope.

Lemma digits2_pos_size p : digits2_pos p = Pos.size p.
Proof. induction p; cbn; congruence. Qed.

Lemma Zdigits2_log2 m : 0 < m -> Zdigits2 m = Z.log2 m + 1.
Proof.
  destruct m as [|p|p]; try lia. intros _. cbn [Zdigits2].
  rewrite digits2_pos_size. destruct p; cbn [Pos.size Z.log2]; lia.
Qed.

Lemma Zdigits2_nonneg m : 0 <= Zdigits2 m.
Proof. destruct m; cbn; lia. Qed.

Lemma Zdigits2_pos m : 0 < m -> 1 <= Zdigits2 m.
Proof. intros H. rewrite Zdigits2_log2 by done. pose proof (Z.log2_nonneg m). lia. Qed.

Lemma Zdigits2_mono a b : 0 <= a <= b -> Zdigits2 a <= Zdigits2 b.
Proof.
  intros [Ha Hab]. destruct (Z.eq_dec a 0) as [->|Hne].
  - apply Zdigits2_nonneg.
  - rewrite !Zdigits2_log2 by lia. pose proof (Z.log2_le_mono a b Hab). lia.
Qed.

Lemma Zdigits2_succ a : 0 <= a -> Zdigits2 (a + 1) <= Zdigits2 a + 1.
Proof.
  intros Ha. destruct (Z.eq_dec a 0) as [->|Hne]; [cbv; congruence|].
  rewrite !Zdigits2_log2 by lia. pose proof (Z.log2_succ_le a).
  unfold Z.succ in *. lia.
Qed.

Lemma Zdigits2_mul a b : 0 < a -> 0 < b -> Zdigits2 (a * b) <= Zdigits2 a + Zdigits2 b.
Proof.
  intros Ha Hb. rewrite !Zdigits2_log2 by nia.
  pose proof (Z.log2_mul_above a b). lia.
Qed.

Lemma Zdigits2_mul_pow2 a k : 0 < a -> 0 <= k -> Zdigits2 (a * 2 ^ k) = Zdigits2 a + k.
Proof.
  intros Ha Hk. assert (0 < 2 ^ k) by (apply Z.pow_pos_nonneg; lia).
  rewrite !Zdigits2_log2 by nia. rewrite Z.log2_mul_pow2 by lia. lia.
Qed.

Lemma Zdigits2_div_pow2 m n :
  0 <= m -> 0 <= n -> Zdigits2 (m / 2 ^ n) <= Z.max 0 (Zdigits2 m - n).
Proof.
  intros Hm Hn. assert (0 < 2 ^ n) as Hp by (apply Z.pow_pos_nonneg; lia).
  destruct (Z.eq_dec (m / 2 ^ n) 0) as [->|Hq]; [cbn [Zdigits2]; lia|].
  assert (0 < m / 2 ^ n) as Hq' by (pose proof (Z.div_pos m (2 ^ n)); lia).
  assert (0 < m).
  { destruct (Z.eq_dec m 0) as [->|]; [|lia]. rewrite Z.div_0_l in Hq; lia. }
  rewrite !Zdigits2_log2 by lia.
  rewrite <- Z.shiftr_div_pow2 by lia. rewrite Z.log2_shiftr by lia.
  assert (2 ^ n <= m).
  { destruct (Z.lt_ge_cases m (2 ^ n)) as [Hlt|]; [|lia].
    rewrite Z.div_small in Hq' by lia. lia. }
  assert (n <= Z.log2 m) by (apply Z.log2_le_pow2; lia).
  lia.
Qed.

Lemma Zdigits2_lt_pow2 m k : 0 < m -> Zdigits2 m <= k -> m < 2 ^ k.
Proof.
  intros Hm H. rewrite Zdigits2_log2 in H by done.
  apply Z.log2_lt_pow2; lia.
Qed.

Lemma Zdigits2_le_of_lt_pow2 m k : 0 < m -> m < 2 ^ k -> Zdigits2 m <= k.
Proof.
  intros Hm H. rewrite Zdigits2_log2 by done.
  apply Z.log2_lt_pow2 in H; lia.
Qed.

Lemma shr_1_m mrs : 0 <= shr_m mrs -> shr_m (shr_1 mrs) = shr_m mrs / 2.
Proof.
  destruct mrs as [m r s]. cbn [shr_m]. intros Hm.
  destruct m as [|p|p]; [done| |lia].
  destruct p; cbn [shr_1 shr_m].
  - rewrite Pos2Z.inj_xI. apply Z.div_unique with 1; lia.
  - rewrite Pos2Z.inj_xO. apply Z.div_unique with 0; lia.
  - done.
Qed.

Lemma pow2_xO p : 2 ^ Z.pos p~0 = 2 ^ Z.pos p * 2 ^ Z.pos p.
Proof. rewrite <- Z.pow_add_r by lia. f_equal. lia. Qed.

Lemma pow2_xI p : 2 ^ Z.pos p~1 = 2 * (2 ^ Z.pos p * 2 ^ Z.pos p).
Proof.
  rewrite <- Z.pow_add_r, <- Z.pow_succ_r by lia. f_equal. lia.
Qed.

Lemma iter_shr_m p mrs :
  0 <= shr_m mrs -> shr_m (SpecFloat.iter_pos shr_1 p mrs) = shr_m mrs / 2 ^ Zpos p.
Proof.
  revert mrs. induction p as [p IH|p IH|]; intros mrs Hm; cbn [SpecFloat.iter_pos].
  - assert (0 <= shr_m (shr_1 mrs)) as H1.
    { rewrite shr_1_m by done. apply Z.div_pos; lia. }
    assert (0 < 2 ^ Z.pos p) by (apply Z.pow_pos_nonneg; lia).
    assert (0 <= shr_m (SpecFloat.iter_pos shr_1 p (shr_1 mrs))) as H2.
    { rewrite IH by done. apply Z.div_pos; lia. }
    rewrite IH, IH, shr_1_m by done.
    rewrite !Z.div_div by lia. by rewrite pow2_xI.
  - assert (0 < 2 ^ Z.pos p) by (apply Z.pow_pos_nonneg; lia).
    assert (0 <= shr_m (SpecFloat.iter_pos shr_1 p mrs)) as H2.
    { rewrite IH by done. apply Z.div_pos; lia. }
    rewrite IH, IH by done.
    rewrite !Z.div_div by lia. by rewrite pow2_xO.
  - rewrite shr_1_m by done. reflexivity.
Qed.

Lemma shr_record_of_loc_m m l : shr_m (shr_record_of_loc m l) = m.
Proof. destruct l as [|[]]; reflexivity. Qed.

(** The shift to the exponent that [fexp] asks for. *)
Lemma shr_fexp_spec m e l :
  0 <= m ->
  snd (shr_fexp prec emax m e l) = Z.max e (Z.max (Zdigits2 m + e - 53) (-1074))
  /\ shr_m (fst (shr_fexp prec emax m e l))
     = m / 2 ^ (snd (shr_fexp prec emax m e l) - e).
Proof.
  intros Hm. unfold shr_fexp, shr.
  change (fexp prec emax (Zdigits2 m + e))
    with (Z.max (Zdigits2 m + e - 53) (-1074)).
  destruct (Z.max (Zdigits2 m + e - 53) (-1074) - e) as [|p|p] eqn:E;
    cbn [fst snd].
  - split; [lia|]. rewrite Z.sub_diag.
    rewrite shr_record_of_loc_m, Z.div_1_r. reflexivity.
  - split; [lia|]. replace (e + Z.pos p - e) with (Z.pos p) by lia.
    rewrite iter_shr_m; rewrite shr_record_of_loc_m; done.
  - split; [lia|]. rewrite Z.sub_diag.
    rewrite shr_record_of_loc_m, Z.div_1_r. reflexivity.
Qed.

Lemma round_nearest_even_bounds m l :
  m <= round_nearest_even m l <= m + 1.
Proof.
  unfold round_nearest_even. destruct l as [|[]]; try lia.
  destruct (Z.even m); lia.
Qed.


(** Rounding a positive mantissa whose value is below [2^K], at an
    exponent of at most [E], stays within the finite doubles. *)
Lemma binary_round_aux_within sx m e l E K :
  0 < m -> e <= E -> Zdigits2 m + e <= K -> E <= 971 -> 0 <= K <= 1023 ->
  within (Z.max E (K - 52)) (K + 1) (binary_round_aux prec emax sx m e l).
Proof.
  intros Hm He Hd HE HK. unfold binary_round_aux.
  pose proof (shr_fexp_spec m e l ltac:(lia)) as [He1 Hm1].
  destruct (shr_fexp prec emax m e l) as [mrs1 e1]. cbn [fst snd] in He1, Hm1.
  pose proof (Zdigits2_pos m Hm) as Hdp.
  assert (0 < 2 ^ (e1 - e)) as Hp by (apply Z.pow_pos_nonneg; lia).
  assert (0 <= shr_m mrs1) as Hm1' by (rewrite Hm1; apply Z.div_pos; lia).
  pose proof (Zdigits2_div_pow2 m (e1 - e) ltac:(lia) ltac:(lia)) as Hd1.
  rewrite <- Hm1 in Hd1.
  pose proof (round_nearest_even_bounds (shr_m mrs1) (loc_of_shr_record mrs1)) as Hr.
  set (m2 := round_nearest_even (shr_m mrs1) (loc_of_shr_record mrs1)) in *.
  assert (Zdigits2 m2 + e1 <= K + 1) as Hd2.
  { pose proof (Zdigits2_mono m2 (shr_m mrs1 + 1) ltac:(lia)) as H1.
    pose proof (Zdigits2_succ (shr_m mrs1) Hm1') as H2.
    destruct (Z.eq_dec (shr_m mrs1) 0) as [Hz|Hz].
    - rewrite Hz in H1, H2. cbn [Zdigits2] in H2. lia.
    - pose proof (Zdigits2_pos (shr_m mrs1) ltac:(lia)). lia. }
  pose proof (shr_fexp_spec m2 e1 loc_Exact ltac:(lia)) as [He2 Hm2].
  destruct (shr_fexp prec emax m2 e1 loc_Exact) as [mrs2 e2].
  cbn [fst snd] in He2, Hm2.
  assert (0 < 2 ^ (e2 - e1)) as Hp2 by (apply Z.pow_pos_nonneg; lia).
  assert (0 <= shr_m mrs2) as Hm2' by (rewrite Hm2; apply Z.div_pos; lia).
  pose proof (Zdigits2_div_pow2 m2 (e2 - e1) ltac:(lia) ltac:(lia)) as Hd3.
  rewrite <- Hm2 in Hd3.
  pose proof (Zdigits2_nonneg m2).
  destruct (shr_m mrs2) as [|p|p] eqn:Em; [done| |lia].
  pose proof (Zdigits2_pos (Z.pos p) ltac:(lia)).
  replace (e2 <=? emax - prec) with true
    by (symmetry; apply Z.leb_le; unfold emax, prec; lia).
  cbn [within]. lia.
Qed.

(** What rounding returns is never a NaN, and when finite it has at
    most 53 digits at an exponent of at most 971. *)
Lemma binary_round_aux_canonical sx m e l :
  0 <= m ->
  match binary_round_aux prec emax sx m e l with
  | S754_nan => False
  | S754_infinity _ => True
  | x => within 971 1024 x
  end.
Proof.
  intros Hm. unfold binary_round_aux.
  pose proof (shr_fexp_spec m e l Hm) as [He1 Hm1].
  destruct (shr_fexp prec emax m e l) as [mrs1 e1]. cbn [fst snd] in He1, Hm1.
  assert (0 < 2 ^ (e1 - e)) as Hp by (apply Z.pow_pos_nonneg; lia).
  assert (0 <= shr_m mrs1) as Hm1' by (rewrite Hm1; apply Z.div_pos; lia).
  pose proof (round_nearest_even_bounds (shr_m mrs1) (loc_of_shr_record mrs1)) as Hr.
  set (m2 := round_nearest_even (shr_m mrs1) (loc_of_shr_record mrs1)) in *.
  pose proof (shr_fexp_spec m2 e1 loc_Exact ltac:(lia)) as [He2 Hm2].
  destruct (shr_fexp prec emax m2 e1 loc_Exact) as [mrs2 e2].
  cbn [fst snd] in He2, Hm2.
  assert (0 < 2 ^ (e2 - e1)) as Hp2 by (apply Z.pow_pos_nonneg; lia).
  assert (0 <= shr_m mrs2) as Hm2' by (rewrite Hm2; apply Z.div_pos; lia).
  pose proof (Zdigits2_div_pow2 m2 (e2 - e1) ltac:(lia) ltac:(lia)) as Hd3.
  rewrite <- Hm2 in Hd3.
  destruct (shr_m mrs2) as [|p|p] eqn:Em; [done| |lia].
  destruct (e2 <=? emax - prec) eqn:Ee; [|done].
  apply Z.leb_le in Ee. unfold emax, prec in Ee.
  cbn [within]. lia.
Qed.

Lemma pos_iter_xO m d : Z.pos (Pos.iter xO m d) = Z.pos m * 2 ^ Z.pos d.
Proof.
  induction d as [|d IH] using Pos.peano_ind.
  - cbn. lia.
  - rewrite Pos.iter_succ, Pos2Z.inj_xO, IH, Pos2Z.inj_succ, Z.pow_succ_r by lia.
    ring.
Qed.

Lemma shl_align_spec m e e' :
  let a := shl_align m e e' in
  snd a = Z.min e e' /\ Z.pos (fst a) = Z.pos m * 2 ^ (e - snd a).
Proof.
  unfold shl_align. destruct (e' - e) as [|p|p] eqn:E; cbn [fst snd].
  - split; [lia|]. rewrite Z.sub_diag. cbn. lia.
  - split; [lia|]. rewrite Z.sub_diag. cbn. lia.
  - split; [lia|]. rewrite pos_iter_xO. f_equal. f_equal. lia.
Qed.

Lemma binary_round_within sx m e E K :
  e <= E -> Zdigits2 (Z.pos m) + e <= K -> E <= 971 -> 0 <= K <= 1023 ->
  within (Z.max E (K - 52)) (K + 1) (binary_round prec emax sx m e).
Proof.
  intros He Hd HE HK. unfold binary_round.
  pose proof (shl_align_spec m e (fexp prec emax (Z.pos (digits2_pos m) + e)))
    as [H1 H2].
  destruct (shl_align m e _) as [mz ez]. cbn [fst snd] in H1, H2.
  apply binary_round_aux_within; try lia.
  rewrite H2, Zdigits2_mul_pow2 by lia. lia.
Qed.

Lemma nearest_within n x : of_int n = Ok x -> within 971 1024 x.
Proof.
  unfold of_int, nearest, binary_normalize.
  destruct n as [|p|p].
  - intros [= <-]. done.
  - unfold binary_round.
    destruct (shl_align p 0 _) as [mz ez].
    pose proof (binary_round_aux_canonical false (Z.pos mz) ez loc_Exact
                  ltac:(lia)) as H.
    destruct (binary_round_aux prec emax false (Z.pos mz) ez loc_Exact);
      try done; by intros [= <-].
  - unfold binary_round.
    destruct (shl_align p 0 _) as [mz ez].
    pose proof (binary_round_aux_canonical true (Z.pos mz) ez loc_Exact
                  ltac:(lia)) as H.
    destruct (binary_round_aux prec emax true (Z.pos mz) ez loc_Exact);
      try done; by intros [= <-].
Qed.

Lemma within_mono E K E' K' x :
  E <= E' -> K <= K' -> within E K x -> within E' K' x.
Proof. destruct x; cbn; try done. lia. Qed.

Lemma fmul_within E1 K1 E2 K2 x y :
  within E1 K1 x -> within E2 K2 y ->
  E1 + E2 <= 971 -> 0 <= K1 + K2 <= 1023 ->
  within (Z.max (E1 + E2) (K1 + K2 - 52)) (K1 + K2 + 1) (fmul x y).
Proof.
  intros Hx Hy HE HK. unfold fmul.
  destruct x as [sx| | |sx mx ex], y as [sy| | |sy my ey]; try done.
  cbn [within] in Hx, Hy. cbn [SFmul].
  apply binary_round_aux_within; try lia.
  rewrite Pos2Z.inj_mul.
  pose proof (Zdigits2_mul (Z.pos mx) (Z.pos my) ltac:(lia) ltac:(lia)). lia.
Qed.

Lemma fadd_finite E K x y :
  within E K x -> within E K y -> E <= 971 -> 0 <= K <= 1022 ->
  is_finite (fadd x y).
Proof.
  intros Hx Hy HE HK. unfold fadd.
  destruct x as [sx| | |sx mx ex], y as [sy| | |sy my ey]; try done.
  - cbn. by destruct sx, sy.
  - cbn [within] in Hx, Hy. cbn [SFadd].
    pose proof (shl_align_spec mx ex (Z.min ex ey)) as [Hx1 Hx2].
    pose proof (shl_align_spec my ey (Z.min ex ey)) as [Hy1 Hy2].
    destruct (shl_align mx ex (Z.min ex ey)) as [ax ex'].
    destruct (shl_align my ey (Z.min ex ey)) as [ay ey'].
    cbn [fst snd] in *.
    pose proof (Zdigits2_pos (Z.pos mx) ltac:(lia)) as Hdx.
    pose proof (Zdigits2_pos (Z.pos my) ltac:(lia)) as Hdy.
    assert (Z.pos ax < 2 ^ (K - Z.min ex ey)) as Hax.
    { rewrite Hx2, Hx1.
      replace (K - Z.min ex ey) with ((K - ex) + (ex - Z.min ex (Z.min ex ey))) by lia.
      rewrite Z.pow_add_r by lia.
      apply Z.mul_lt_mono_pos_r; [apply Z.pow_pos_nonneg; lia|].
      apply Zdigits2_lt_pow2; lia. }
    assert (Z.pos ay < 2 ^ (K - Z.min ex ey)) as Hay.
    { rewrite Hy2, Hy1.
      replace (K - Z.min ex ey) with ((K - ey) + (ey - Z.min ey (Z.min ex ey))) by lia.
      rewrite Z.pow_add_r by lia.
      apply Z.mul_lt_mono_pos_r; [apply Z.pow_pos_nonneg; lia|].
      apply Zdigits2_lt_pow2; lia. }
    assert (2 ^ (K + 1 - Z.min ex ey) = 2 * 2 ^ (K - Z.min ex ey)) as Hpow.
    { rewrite <- Z.pow_succ_r by lia. f_equal. lia. }
    unfold binary_normalize.
    destruct (cond_Zopp sx (Z.pos ax) + cond_Zopp sy (Z.pos ay)) as [|p|p] eqn:Es;
      [done| |].
    + assert (within (Z.max E (K + 1 - 52)) (K + 1 + 1)
                (binary_round prec emax false p (Z.min ex ey))) as Hw.
      { apply binary_round_within; try lia.
        enough (Zdigits2 (Z.pos p) <= K + 1 - Z.min ex ey) by lia.
        apply Zdigits2_le_of_lt_pow2; [lia|].
        rewrite Hpow. destruct sx, sy; cbn [cond_Zopp] in Es; lia. }
      by destruct (binary_round prec emax false p (Z.min ex ey)).
    + assert (within (Z.max E (K + 1 - 52)) (K + 1 + 1)
                (binary_round prec emax true p (Z.min ex ey))) as Hw.
      { apply binary_round_within; try lia.
        enough (Zdigits2 (Z.pos p) <= K + 1 - Z.min ex ey) by lia.
        apply Zdigits2_le_of_lt_pow2; [lia|].
        rewrite Hpow. destruct sx, sy; cbn [cond_Zopp] in Es; lia. }
      by destruct (binary_round prec emax true p (Z.min ex ey)).
Qed.

Lemma INPUT_PER_TOKEN_within : within (-75) (-22) INPUT_PER_TOKEN.
Proof. vm_compute. split; discriminate. Qed.

Lemma OUTPUT_PER_TOKEN_within : within (-73) (-20) OUTPUT_PER_TOKEN.
Proof. vm_compute. split; discriminate. Qed.

(** The estimated cost, when it is computed, is a finite double. *)
Lemma est_cost_finite u x : est_cost u = Ok x -> is_finite x.
Proof.
  unfold est_cost.
  destruct (of_int (prompt_tokens u)) as [p|] eqn:Ep; [|done].
  destruct (of_int (completion_tokens u)) as [c|] eqn:Ec; [|done].
  cbn. intros [= <-].
  apply nearest_within in Ep, Ec.
  pose proof (fmul_within _ _ _ _ _ _ Ep INPUT_PER_TOKEN_within ltac:(lia) ltac:(lia)) as H1.
  pose proof (fmul_within _ _ _ _ _ _ Ec OUTPUT_PER_TOKEN_within ltac:(lia) ltac:(lia)) as H2.
  apply (fadd_finite 952 1005); try lia.
  - eapply within_mono; [| |exact H1]; lia.
  - eapply within_mono; [| |exact H2]; lia.
Qed.


Lemma of_int_ok n : Z.abs n < 2 ^ 1023 -> exists x, of_int n = Ok x.
Proof.
  intros Hn. unfold of_int, nearest, binary_normalize.
  destruct n as [|p|p]; [by eexists| |].
  - pose proof (binary_round_within false p 0 0 1023 ltac:(lia)) as H.
    destruct (binary_round prec emax false p 0); try by eexists.
    exfalso. apply H; try lia.
    enough (Zdigits2 (Z.pos p) <= 1023) by lia.
    apply Zdigits2_le_of_lt_pow2; lia.
  - pose proof (binary_round_within true p 0 0 1023 ltac:(lia)) as H.
    destruct (binary_round prec emax true p 0); try by eexists.
    exfalso. apply H; try lia.
    enough (Zdigits2 (Z.pos p) <= 1023) by lia.
    apply Zdigits2_le_of_lt_pow2; lia.
Qed.

End FloatFacts.

Section RenderFacts.

Open Scope N_scope.

Lemma pretty_N_char_digit d : is_digit (N_of_ascii (pretty_N_char d)).
Proof.
  unfold pretty_N_char, is_digit.
  repeat case_match; vm_compute; split; discriminate.
Qed.

Lemma pretty_N_go_digits x s :
  exists pre, lit (pretty_N_go x s) = pre ++ lit s /\ Forall is_digit pre.
Proof.
  revert s. induction (N.lt_wf_0 x) as [x _ IH]; intros s.
  destruct (decide (x = 0)) as [->|Hx].
  - exists []. by rewrite pretty_N_go_0.
  - rewrite pretty_N_go_step by lia.
    destruct (IH (x `div` 10) ltac:(apply N.div_lt; lia)
                (String (pretty_N_char (x `mod` 10)) s)) as (pre & -> & Hpre).
    exists (pre ++ [N_of_ascii (pretty_N_char (x `mod` 10))]).
    split; [by rewrite <- app_assoc|].
    apply Forall_app_2; [done|].
    constructor; [apply pretty_N_char_digit|constructor].
Qed.

Lemma digits_shape n : digits n <> [] /\ Forall is_digit (digits n).
Proof.
  unfold digits, pretty, pretty_N. case_decide as Hn.
  - split; [done|]. repeat constructor; vm_compute; discriminate.
  - rewrite pretty_N_go_step by lia.
    destruct (pretty_N_go_digits (n `div` 10)
                (String (pretty_N_char (n `mod` 10)) "")) as (pre & -> & Hpre).
    split; [by destruct pre|].
    apply Forall_app_2; [done|].
    constructor; [apply pretty_N_char_digit|constructor].
Qed.

Lemma digits6_shape n : length (digits6 n) = 6%nat /\ Forall is_digit (digits6 n).
Proof.
  split; [reflexivity|]. unfold digits6.
  apply Forall_forall. intros c Hc.
  apply list_elem_of_In, in_map_iff in Hc as (k & <- & _).
  unfold is_digit. cbv beta.
  pose proof (N.mod_lt (n / 10 ^ k) 10 ltac:(done)) as H.
  revert H. generalize ((n / 10 ^ k) mod 10). intros d H. lia.
Qed.

(** A finite double is rendered as a decimal with six digits after the
    point. *)
Lemma format_6f_shape x : is_finite x -> six_decimals (format_6f x).
Proof.
  destruct x as [sg| | |sg m e]; try done; intros _; cbn [format_6f].
  - exists (if sg then lit "-" else []), (lit "0"), (lit "000000").
    split; [done|]. split; [destruct sg; auto|].
    split; [done|]. split; [repeat constructor; vm_compute; discriminate|].
    split; [done|]. repeat constructor; vm_compute; discriminate.
  - exists (if sg then lit "-" else []), (digits (scaled_micro m e / 1000000)),
      (digits6 (scaled_micro m e mod 1000000)).
    destruct (digits_shape (scaled_micro m e / 1000000)) as [H1 H2].
    destruct (digits6_shape (scaled_micro m e mod 1000000)) as [H3 H4].
    split; [done|]. split; [destruct sg; auto|]. done.
Qed.

End RenderFacts.

(** C3: the estimated cost is the binary64 value of
    [prompt_tokens * (0.15 / 1_000_000) + completion_tokens * (0.60 / 1_000_000)],
    each count converted to a double first; it is computed for all counts
    below [2^1023] in size; for one million tokens of each kind it is the
    double 0.75 exactly; and whenever it is computed it is a finite
    double, which [.6f] renders with exactly six digits after the
    decimal point ("0.750000" for 0.75). *)
Theorem est_cost_binary64 :
  (forall u : Usage,
      est_cost u
      = (p ← of_int (prompt_tokens u);
         c ← of_int (completion_tokens u);
         Ok (fadd (fmul p (fdiv (literal 15 2) (nearest 1000000)))
                  (fmul c (fdiv (literal 60 2) (nearest 1000000))))))
  /\ (forall u : Usage,
        (Z.abs (prompt_tokens u) < 2 ^ 1023)%Z ->
        (Z.abs (completion_tokens u) < 2 ^ 1023)%Z ->
        exists x, est_cost u = Ok x)
  /\ (forall t : Z, est_cost (MkUsage 1000000 1000000 t) = Ok three_quarters)
  /\ literal 75 2 = three_quarters
  /\ format_6f three_quarters = lit "0.750000"
  /\ (forall (u : Usage) (x : spec_float),
        est_cost u = Ok x -> is_finite x /\ six_decimals (format_6f x)).
Proof.
  split; [reflexivity|]. split.
  { intros u Hp Hc. unfold est_cost.
    destruct (of_int_ok _ Hp) as [p ->]. destruct (of_int_ok _ Hc) as [c ->].
    by eexists. }
  split; [intros t; vm_compute; reflexivity|].
  split; [vm_compute; reflexivity|].
  split; [vm_compute; reflexivity|].
  intros u x H. pose proof (est_cost_finite u x H) as Hf.
  split; [done|]. by apply format_6f_shape.
Qed.

(** The cost of the sample usage, 120 prompt and 80 completion tokens,
    is computed and rendered with six decimals. *)
Lemma est_cost_binary64_witness :
  exists x,
    est_cost (MkUsage 120 80 200) = Ok x
    /\ format_6f x = lit "0.000066"
    /\ six_decimals (format_6f x).
Proof.
  destruct (proj1 (proj2 est_cost_binary64) (MkUsage 120 80 200)) as [x Hx].
  - vm_compute. reflexivity.
  - vm_compute. reflexivity.
  - exists x. split; [exact Hx|]. split.
    + vm_compute in Hx. injection Hx as <-. vm_compute. reflexivity.
    + apply (proj2 (proj2 (proj2 (proj2 (proj2 est_cost_binary64)))) _ _ Hx).
Defined.

Lemma blank_lang_falls_back_witness :
  effective_lang sample_args (<["lang" := Some (lit "  ")]> acme_row) = lit "English"
  /\ effective_lang sample_args acme_row = lit "English".
Proof.
  destruct (blank_lang_falls_back sample_args acme_client
              (<["lang" := Some (lit "  ")]> acme_row) (lit "  ") state0)
    as (H1 & H2 & _).
  - reflexivity.
  - reflexivity.
  - reflexivity.
  - split; [exact H1|]. vm_compute. reflexivity.
Defined.

(** ** More on the response parser *)

Section ParserMore.

Ltac colon_member := cbv; repeat first [left; reflexivity | right].
Ltac lookups :=
  repeat first [ rewrite lookup_insert_eq | rewrite lookup_insert_ne by done ].
Implicit Types (l r x : list N) (st : pstate) (lines : list (list N)).

Lemma lower_dash l : startswith (lit "-") l = true -> startswith (lit "-") (lower l) = true.
Proof.
  destruct l as [|c l]; [done|]. cbn [lit startswith].
  rewrite andb_true_r. intros H. apply N.eqb_eq in H as <-. reflexivity.
Qed.

Lemma field_markers_cases (k : string) (m : list N) :
  (k, m) ∈ field_markers ->
  (k = "subject" /\ m = lit "subject:") \/ (k = "opener" /\ m = lit "opener:")
  \/ (k = "cta" /\ m = lit "cta:").
Proof.
  unfold field_markers. intros H.
  repeat (apply elem_of_cons in H as [H|H]); try (injection H as -> ->; tauto).
  by apply elem_of_nil in H.
Qed.

Lemma step_field_line (k : string) (m : list N) st l :
  (k, m) ∈ field_markers -> startswith m (lower l) = true ->
  exists v, value_after_colon l = Ok v
            /\ step st l = Ok (PState (<[k := v]> (out st)) (bullets st) None).
Proof.
  intros Hk Hm.
  assert (In 58 m) as Hcolon.
  { destruct (field_markers_cases k m Hk) as [[-> ->]|[[-> ->]|[-> ->]]];
      colon_member. }
  destruct (value_after_colon_ok m l Hcolon Hm) as [v Hv]. exists v. split; [done|].
  destruct (startswith (lit "-") l) eqn:Hd.
  { apply lower_dash in Hd. apply startswith_prefix in Hm as [r Hr].
    rewrite Hr in Hd. exfalso.
    destruct (field_markers_cases k m Hk) as [[-> ->]|[[-> ->]|[-> ->]]];
      discriminate Hd. }
  pose proof Hm as Hm'. apply startswith_prefix in Hm' as [r Hr].
  unfold step. rewrite Hd, Hv, Hr.
  destruct (field_markers_cases k m Hk) as [[-> ->]|[[-> ->]|[-> ->]]];
    reflexivity.
Qed.


Lemma step_keeps_field (k : string) (m : list N) st l st' :
  (k, m) ∈ field_markers -> startswith m (lower l) = false ->
  step st l = Ok st' -> out st' !! k = out st !! k.
Proof.
  intros Hk.
  destruct (field_markers_cases k m Hk) as [[-> ->]|[[-> ->]|[-> ->]]];
    eauto using step_keeps_subject, step_keeps_opener, step_keeps_cta.
Qed.

(** X1: the value of a field is that of the last line carrying its
    marker: lines before it, whatever they are, and lines after it
    without the marker do not change it. *)
Theorem last_marker_line_wins (k : string) (m : list N)
    (before after : list (list N)) (l : list N) :
  (k, m) ∈ field_markers ->
  startswith m (lower l) = true -> has_marker m after = false ->
  exists v d,
    value_after_colon l = Ok v
    /\ parse_lines (before ++ l :: after) = Ok d
    /\ d !! k = Some v.
Proof.
  intros Hk Hm Hafter.
  destruct (scan_ok init before) as [st1 E1].
  destruct (step_field_line k m st1 l Hk Hm) as (v & Hv & E2).
  destruct (scan_ok (PState (<[k := v]> (out st1)) (bullets st1) None) after)
    as [st3 E3].
  exists v. eexists. split; [done|].
  rewrite parse_lines_eq, scan_app, E1, bind_Ok. cbn [scan].
  rewrite E2, bind_Ok, E3, bind_Ok. split; [reflexivity|].
  assert (out st3 !! k = Some v) as Hout.
  { rewrite (scan_keeps_field k m after _ st3
               (fun s1 a s2 => step_keeps_field k m s1 a s2 Hk) Hafter E3).
    cbn [out]. apply lookup_insert_eq. }
  destruct (field_markers_cases k m Hk) as [[-> ->]|[[-> ->]|[-> ->]]];
    by lookups.
Qed.

Lemma last_marker_line_wins_witness :
  exists d,
    parse_output (join nl [lit "Subject: first"; lit "CTA: call"; lit "SUBJECT: second"])
    = Ok d
    /\ d !! "subject" = Some (lit "second").
Proof.
  destruct (last_marker_line_wins "subject" (lit "subject:")
              [lit "Subject: first"; lit "CTA: call"] [] (lit "SUBJECT: second"))
    as (v & d & Hv & Hd & Hk).
  - unfold field_markers. apply elem_of_cons. by left.
  - reflexivity.
  - reflexivity.
  - exists d. split; [exact Hd|].
    vm_compute in Hv. injection Hv as <-. exact Hk.
Defined.

(** X2: outside bullet mode a line that starts with a dash changes
    nothing, and bullet mode ends at every line that sets a field. *)
Theorem dash_needs_bullet_mode :
  (forall st l, section st <> Some "bullets" -> startswith (lit "-") l = true ->
                step st l = Ok st)
  /\ (forall (k : string) (m : list N) st l st',
        (k, m) ∈ field_markers -> startswith m (lower l) = true ->
        step st l = Ok st' -> section st' = None)
  /\ (forall (k : string) (m : list N) (before after : list (list N)) (l : list N),
        (k, m) ∈ field_markers -> startswith m (lower l) = true ->
        Forall (fun a => startswith (lit "-") a = true) after ->
        exists st1 st2,
          scan init before = Ok st1
          /\ scan init (before ++ l :: after) = Ok st2
          /\ bullets st2 = bullets st1).
Proof.
  split; [|split].
  - intros st l Hs Hd. apply step_ignores. unfold line_matches.
    pose proof (lower_dash l Hd) as Hl. apply startswith_prefix in Hl as [r Hr].
    rewrite Hr, Hd. rewrite bool_decide_eq_false_2 by done. reflexivity.
  - intros k m st l st' Hk Hm E.
    destruct (step_field_line k m st l Hk Hm) as (v & _ & E').
    rewrite E' in E. by injection E as <-.
  - intros k m before after l Hk Hm Hafter.
    destruct (scan_ok init before) as [st1 E1].
    destruct (step_field_line k m st1 l Hk Hm) as (v & _ & E2).
    exists st1, (PState (<[k := v]> (out st1)) (bullets st1) None).
    split; [done|]. split; [|done].
    rewrite scan_app, E1, bind_Ok. cbn [scan]. rewrite E2, bind_Ok.
    induction Hafter as [|a after Ha Hafter IH]; [done|].
    cbn [scan]. rewrite step_ignores; [by rewrite bind_Ok|].
    unfold line_matches. pose proof (lower_dash a Ha) as Hl.
    apply startswith_prefix in Hl as [r Hr]. rewrite Hr, Ha. reflexivity.
Qed.

Lemma dash_needs_bullet_mode_witness :
  exists st2,
    scan init [lit "Bullets:"; lit "- kept"; lit "CTA: call"; lit "- dropped"] = Ok st2
    /\ bullets st2 = [lit "kept"].
Proof.
  destruct (proj2 (proj2 dash_needs_bullet_mode) "cta" (lit "cta:")
              [lit "Bullets:"; lit "- kept"] [lit "- dropped"] (lit "CTA: call"))
    as (st1 & st2 & E1 & E2 & Hb).
  - unfold field_markers. apply elem_of_cons. right.
    apply elem_of_cons. right. apply elem_of_cons. by left.
  - reflexivity.
  - repeat constructor.
  - exists st2. split; [exact E2|]. rewrite Hb.
    vm_compute in E1. by injection E1 as <-.
Defined.


Lemma lstrip_app_space (ws x : list N) :
  forallb is_space ws = true -> lstrip (ws ++ x) = lstrip x.
Proof.
  induction ws as [|c ws IH]; [done|]. cbn. intros H.
  apply andb_true_iff in H as [-> H]. auto.
Qed.

Lemma rstrip_app_space (x ws : list N) :
  forallb is_space ws = true -> rstrip (x ++ ws) = rstrip x.
Proof.
  intros H. unfold rstrip. rewrite rev_app_distr, lstrip_app_space; [done|].
  by rewrite forallb_rev.
Qed.

Lemma strip_padded (ws1 x ws2 : list N) :
  forallb is_space ws1 = true -> forallb is_space ws2 = true ->
  strip (ws1 ++ x ++ ws2) = strip x.
Proof.
  intros H1 H2. unfold strip.
  rewrite lstrip_app_space by done.
  rewrite <- !lstrip_rstrip. by rewrite rstrip_app_space.
Qed.

(** X3: white space around a line and lines of white space only never
    reach the scanner: padding a line, or adding a blank line anywhere,
    leaves the result of parsing the same. *)
Theorem padding_and_blank_lines_ignored
    (before after : list (list N)) (l ws1 ws2 : list N) :
  forallb is_space ws1 = true -> forallb is_space ws2 = true ->
  parse_lines (clean (before ++ (ws1 ++ l ++ ws2) :: after))
  = parse_lines (clean (before ++ l :: after))
  /\ parse_lines (clean (before ++ ws1 :: after))
     = parse_lines (clean (before ++ after)).
Proof.
  intros H1 H2. split.
  - f_equal. rewrite !clean_app. f_equal. unfold clean.
    rewrite !filter_cons, strip_padded by done.
    case_decide; [|done]. cbn [map]. by rewrite strip_padded.
  - f_equal. rewrite !clean_app. f_equal. unfold clean.
    rewrite filter_cons_False; [done|].
    unfold strip. rewrite lstrip_all_space by done. cbn. discriminate.
Qed.

Lemma padding_and_blank_lines_ignored_witness :
  parse_lines (clean [lit "   Subject: Hi  "; lit "  "; lit "CTA: call"])
  = parse_lines (clean [lit "Subject: Hi"; lit "CTA: call"]).
Proof.
  transitivity (parse_lines (clean [lit "Subject: Hi"; lit "  "; lit "CTA: call"])).
  - exact (proj1 (padding_and_blank_lines_ignored [] [lit "  "; lit "CTA: call"]
                    (lit "Subject: Hi") (lit "   ") (lit "  ") eq_refl eq_refl)).
  - exact (proj2 (padding_and_blank_lines_ignored [lit "Subject: Hi"]
                    [lit "CTA: call"] [] (lit "  ") [] eq_refl eq_refl)).
Defined.

Lemma slot_app_l (bs later : list (list N)) (i : nat) :
  (i < length bs)%nat -> slot (bs ++ later) i = slot bs i.
Proof. intros H. unfold slot. by rewrite lookup_app_l. Qed.

(** X4: a bullet keeps the slot it was collected into: once the scanner
    has collected bullet [i] (for [i] below three), field [i] of the
    result is that bullet, whatever lines follow. *)
Theorem collected_bullets_are_final (before after : list (list N)) (st1 : pstate)
    (i : nat) (b : list N) :
  scan init before = Ok st1 -> bullets st1 !! i = Some b -> (i < 3)%nat ->
  exists d, parse_lines (before ++ after) = Ok d /\ d !! bullet_key i = Some b.
Proof.
  intros E1 Hb Hi.
  destruct (scan_ok st1 after) as [st2 E2].
  destruct (scan_bullets_grow _ _ _ E2) as [later Hl].
  eexists. rewrite parse_lines_eq, scan_app, E1, bind_Ok, E2, bind_Ok.
  split; [reflexivity|]. rewrite Hl.
  assert (slot (bullets st1 ++ later) i = b) as Hs.
  { rewrite slot_app_l by (by eapply lookup_lt_Some). unfold slot. by rewrite Hb. }
  destruct i as [|[|[|i]]]; [| | |lia]; rewrite <- Hs;
    change (bullet_key 0) with "bullet1"; change (bullet_key 1) with "bullet2";
    change (bullet_key 2) with "bullet3"; by lookups.
Qed.

Lemma collected_bullets_are_final_witness :
  exists d,
    parse_lines ([lit "Bullets:"; lit "- a"] ++ [lit "- b"; lit "Bullets:"; lit "- c"; lit "- d"])
    = Ok d
    /\ d !! "bullet1" = Some (lit "a").
Proof.
  apply (collected_bullets_are_final [lit "Bullets:"; lit "- a"] _
           (PState out_init [lit "a"] (Some "bullets")) 0 (lit "a")).
  - vm_compute. reflexivity.
  - reflexivity.
  - lia.
Defined.


Lemma splitlines_from_single (t cur : list N) :
  single_line cur -> Forall single_line (splitlines_from cur t).
Proof.
  remember (length t) as n eqn:Hn. revert t cur Hn.
  induction n as [n IH] using lt_wf_ind. intros t cur Hn Hcur.
  destruct t as [|c t]; cbn [splitlines_from].
  - destruct cur; [constructor|constructor; [done|constructor]].
  - cbn [length] in Hn. destruct (c =? 13) eqn:E13.
    + destruct t as [|c2 t]; [constructor; [done|constructor]|].
      cbn [length] in Hn.
      destruct (c2 =? 10); constructor; try done;
        (eapply IH; [|reflexivity|constructor]); cbn [length]; lia.
    + destruct (is_linebreak c) eqn:Eb.
      * constructor; [done|]. eapply IH; [|reflexivity|constructor]. lia.
      * eapply IH; [|reflexivity|]; [lia|].
        apply Forall_app_2; [done|]. by constructor.
Qed.

Lemma lstrip_Forall (P : N -> Prop) (l : list N) : Forall P l -> Forall P (lstrip l).
Proof.
  induction 1 as [|c l Hc Hl IH]; cbn; [constructor|].
  destruct (is_space c); [done|by constructor].
Qed.

Lemma strip_Forall (P : N -> Prop) (l : list N) : Forall P l -> Forall P (strip l).
Proof.
  intros H. unfold strip, rstrip.
  apply Forall_rev, lstrip_Forall, Forall_rev, lstrip_Forall, H.
Qed.

Lemma split_colon_1_Forall (P : N -> Prop) (l : list N) :
  Forall P l -> Forall (Forall P) (split_colon_1 l).
Proof.
  induction 1 as [|c l Hc Hl IH]; cbn [split_colon_1]; [repeat constructor|].
  destruct (c =? 58); [repeat constructor; done|].
  destruct (split_colon_1 l) as [|h rest]; [repeat constructor; done|].
  inversion IH; subst. constructor; [by constructor|done].
Qed.

Lemma value_after_colon_single (l v : list N) :
  single_line l -> value_after_colon l = Ok v -> single_line v.
Proof.
  intros Hl. unfold value_after_colon, index.
  destruct (split_colon_1 l !! 1%nat) as [b|] eqn:E; [|done].
  rewrite bind_Ok. intros [= <-]. apply strip_Forall.
  pose proof (split_colon_1_Forall _ l Hl) as H.
  eapply Forall_lookup_1 in H; eauto.
Qed.

Lemma step_tidy st l st' :
  single_line l ->
  map_Forall (fun _ v => tidy v) (out st) /\ Forall tidy (bullets st) ->
  step st l = Ok st' ->
  map_Forall (fun _ v => tidy v) (out st') /\ Forall tidy (bullets st').
Proof.
  intros Hl [Ho Hb] E. unfold step in E.
  repeat match type of E with
         | context [if ?c then _ else _] => destruct c eqn:?
         end;
  repeat match type of E with
         | context [value_after_colon ?l] =>
             let V := fresh "V" in destruct (value_after_colon l) eqn:V
         end;
  cbn in E; try discriminate E; injection E as <-; cbn [out bullets];
  try (split; [|done]; apply map_Forall_insert_2; [|done]; split;
       [by eapply value_after_colon_trimmed|by eapply value_after_colon_single]);
  try done.
  split; [done|]. apply Forall_app_2; [done|].
  constructor; [|constructor]. split; [apply strip_idem|].
  apply strip_Forall. by apply Forall_drop.
Qed.

Lemma parse_output_tidy (text : list N) (d : gmap string (list N)) :
  parse_output text = Ok d -> map_Forall (fun _ v => tidy v) d.
Proof.
  unfold parse_output. rewrite parse_lines_eq.
  destruct (scan init (clean_lines text)) as [st|] eqn:E; [|done].
  rewrite bind_Ok. intros [= <-].
  assert (map_Forall (fun _ v => tidy v) (out st) /\ Forall tidy (bullets st))
    as [Ho Hb].
  { eapply (scan_invariant
              (fun s => map_Forall (fun _ v => tidy v) (out s)
                        /\ Forall tidy (bullets s))
              single_line); [| |split|exact E].
    - intros s1 l s2 Hl H1 H2. eapply step_tidy; eauto.
    - unfold clean_lines, clean. apply Forall_forall. intros l Hl.
      apply list_elem_of_In, in_map_iff in Hl as (raw & <- & Hraw).
      apply strip_Forall. apply list_elem_of_In, list_elem_of_filter in Hraw as [_ Hraw].
      pose proof (splitlines_from_single text [] ltac:(constructor)) as Hs.
      rewrite Forall_forall in Hs. by apply Hs.
    - unfold init, out_init. cbn [out].
      repeat (apply map_Forall_insert_2; [by split; [|constructor]|]).
      apply map_Forall_empty.
    - constructor. }
  assert (forall i, tidy (slot (bullets st) i)) as Hslot.
  { intros i. unfold slot. destruct (bullets st !! i) as [b|] eqn:Eb; cbn.
    - eapply Forall_lookup_1 in Hb; eauto.
    - split; [done|constructor]. }
  repeat (apply map_Forall_insert_2; [apply Hslot|]). done.
Qed.

(** X5: every field of a parsed message is a single line with no white
    space around it. *)
Theorem parsed_fields_are_tidy (text : list N) (d : gmap string (list N))
    (k : string) (v : list N) :
  parse_output text = Ok d -> d !! k = Some v ->
  strip v = v /\ single_line v.
Proof.
  intros H Hk. exact (parse_output_tidy text d H k v Hk).
Qed.

Lemma parsed_fields_are_tidy_witness :
  strip (lit "Low-stock alerts") = lit "Low-stock alerts"
  /\ single_line (lit "Low-stock alerts").
Proof.
  apply (parsed_fields_are_tidy acme_response acme_parsed "bullet3").
  - vm_compute. reflexivity.
  - reflexivity.
Defined.


Lemma lower_char_cases (c : N) :
  lower_char c = [105; 775]
  \/ exists y : N, lower_char c = [y] /\ (y = 58 <-> c = 58).
Proof.
  unfold lower_char.
  destruct ((65 <=? c) && (c <=? 90)) eqn:E.
  - right. eexists. split; [reflexivity|].
    apply andb_true_iff in E as [E1 E2]. apply N.leb_le in E1, E2. lia.
  - destruct (c =? 304) eqn:E1; [by left|].
    destruct (c =? 8490) eqn:E2; right; eexists; (split; [reflexivity|]); [|done].
    apply N.eqb_eq in E2. lia.
Qed.

Lemma lower_cons_inv (p m : list N) (y : N) :
  y <> 105 -> lower p = y :: m ->
  exists c p', p = c :: p' /\ lower p' = m /\ (y = 58 <-> c = 58).
Proof.
  intros Hy. destruct p as [|c p]; [done|].
  change (lower (c :: p)) with (lower_char c ++ lower p).
  destruct (lower_char_cases c) as [->|(z & -> & Hz)].
  - intros [= <- _]. done.
  - intros [= -> <-]. eauto.
Qed.

Lemma lower_nil_inv (p : list N) : lower p = [] -> p = [].
Proof.
  destruct p as [|c p]; [done|].
  change (lower (c :: p)) with (lower_char c ++ lower p).
  destruct (lower_char_cases c) as [->|(z & -> & Hz)]; discriminate.
Qed.

Lemma lower_marker_inv (body p : list N) :
  Forall (fun y => y <> 105 /\ y <> 58) body ->
  lower p = body ++ [58] ->
  exists p', p = p' ++ [58] /\ ~ In 58 p'.
Proof.
  intros Hb. revert p. induction Hb as [|y body [Hy1 Hy2] Hb IH]; intros p Hp.
  - apply lower_cons_inv in Hp as (c & p' & -> & Hp' & Hc); [|done].
    apply lower_nil_inv in Hp' as ->.
    destruct Hc as [Hc _]. rewrite (Hc eq_refl).
    exists []. split; [done|]. intros [].
  - cbn [app] in Hp.
    apply lower_cons_inv in Hp as (c & p1 & -> & Hp1 & Hc); [|done].
    destruct (IH _ Hp1) as (p' & -> & Hn).
    exists (c :: p'). split; [done|]. intros [H|H]; [|done].
    destruct Hc as [_ Hc]. apply Hy2, Hc. done.
Qed.

Lemma split_colon_1_at (p' r : list N) :
  ~ In 58 p' -> split_colon_1 (p' ++ 58 :: r) = [p'; r].
Proof.
  induction p' as [|c p' IH]; intros Hn; [done|].
  cbn [app split_colon_1].
  destruct (c =? 58) eqn:E.
  - apply N.eqb_eq in E as ->. exfalso. apply Hn. by left.
  - rewrite IH; [done|]. intros H. apply Hn. by right.
Qed.

Ltac marker_body := repeat (constructor; [split; discriminate|]); constructor.

(** X6: the markers are recognised in any letter case: a line that
    begins with any spelling whose lower-case form is a field marker sets
    that field to the trimmed rest of the line, and any spelling of the
    bullets marker starts bullet mode. *)
Theorem markers_match_in_any_case (st : pstate) (p r : list N) :
  (forall (k : string) (m : list N),
      (k, m) ∈ field_markers -> lower p = m ->
      step st (p ++ r) = Ok (PState (<[k := strip r]> (out st)) (bullets st) None))
  /\ (lower p = lit "bullets:" ->
      step st (p ++ r) = Ok (PState (out st) (bullets st) (Some "bullets"))).
Proof.
  split.
  - intros k m Hk Hp.
    assert (startswith m (lower (p ++ r)) = true) as Hm
      by (rewrite lower_app, Hp; apply startswith_app).
    destruct (step_field_line k m st (p ++ r) Hk Hm) as (v & Hv & ->).
    enough (v = strip r) as -> by done.
    assert (exists p', p = p' ++ [58] /\ ~ In 58 p') as (p' & -> & Hn).
    { destruct (field_markers_cases k m Hk) as [[-> ->]|[[-> ->]|[-> ->]]].
      - apply (lower_marker_inv (lit "subject")); [marker_body|done].
      - apply (lower_marker_inv (lit "opener")); [marker_body|done].
      - apply (lower_marker_inv (lit "cta")); [marker_body|done]. }
    unfold value_after_colon in Hv.
    rewrite <- app_assoc in Hv. cbn [app] in Hv.
    rewrite split_colon_1_at in Hv by done. by injection Hv as <-.
  - intros Hp. unfold step. rewrite lower_app, Hp.
    replace (startswith (lit "subject:") (lit "bullets:" ++ lower r)) with false
      by reflexivity.
    replace (startswith (lit "opener:") (lit "bullets:" ++ lower r)) with false
      by reflexivity.
    replace (startswith (lit "bullets:") (lit "bullets:" ++ lower r)) with true
      by reflexivity.
    reflexivity.
Qed.

Lemma markers_match_in_any_case_witness :
  step init (lit "sUbJeCt: Hello ")
  = Ok (PState (<["subject" := lit "Hello"]> out_init) [] None).
Proof.
  apply (proj1 (markers_match_in_any_case init (lit "sUbJeCt:") (lit " Hello "))
           "subject" (lit "subject:")).
  - unfold field_markers. apply elem_of_cons. by left.
  - reflexivity.
Defined.

End ParserMore.

(** ** More on the body composer *)

Section ComposerMore.

Implicit Types (parsed d : gmap string (list N)) (company niche lang : list N).

Lemma spec_body_layout_lang opener b1 b2 b3 cta lang lang' :
  (truthy b1 || truthy b2 || truthy b3 = true ->
   startswith (lit "ro") (lower lang) = startswith (lit "ro") (lower lang')) ->
  spec_body_layout opener b1 b2 b3 cta lang
  = spec_body_layout opener b1 b2 b3 cta lang'.
Proof.
  intros H. unfold spec_body_layout, spec_heading.
  destruct b1, b2, b3; try (rewrite H by done); reflexivity.
Qed.

(** X7: the body is a function of the opener, the three bullets and the
    call to action, each without its surrounding white space, and of
    whether the language tag starts with "ro"; the company, the niche and
    the subject never reach it, and the language is not looked at when no
    bullet is shown. *)
Theorem body_reads_five_fields company niche lang company' niche' lang' parsed parsed' :
  (forall k, k ∈ body_fields -> strip (get parsed k) = strip (get parsed' k)) ->
  (shows_bullets parsed = true ->
   startswith (lit "ro") (lower lang) = startswith (lit "ro") (lower lang')) ->
  build_email_body company niche parsed lang
  = build_email_body company' niche' parsed' lang'.
Proof.
  intros Hf Hl. unfold build_email_body. rewrite !body_lines_layout.
  rewrite <- !Hf by (unfold body_fields; set_solver).
  f_equal. by apply spec_body_layout_lang.
Qed.

Lemma body_reads_five_fields_witness :
  build_email_body (lit "Acme Roasters") (lit "coffee shop") acme_parsed (lit "English")
  = build_email_body (lit "Other") [] (<["subject" := lit "Hello"]> acme_parsed)
      (lit "fr")
  /\ build_email_body [] [] (<["opener" := lit " Hi "]> out_init) (lit "ro")
     = build_email_body [] [] (<["opener" := lit "Hi"]> out_init) (lit "en").
Proof.
  split.
  - apply body_reads_five_fields.
    + intros k Hk. unfold body_fields in Hk.
      repeat (apply elem_of_cons in Hk as [->|Hk]; [reflexivity|]).
      by apply elem_of_nil in Hk.
    + reflexivity.
  - apply body_reads_five_fields.
    + intros k Hk. unfold body_fields in Hk.
      repeat (apply elem_of_cons in Hk as [->|Hk]; [reflexivity|]).
      by apply elem_of_nil in Hk.
    + intros H. vm_compute in H. discriminate H.
Defined.

Lemma single_line_lit_heading_en : single_line heading_en.
Proof. repeat constructor. Qed.

Lemma single_line_heading_ro : single_line heading_ro.
Proof. repeat constructor. Qed.

Lemma spec_body_layout_lines opener b1 b2 b3 cta lang :
  single_line opener -> single_line b1 -> single_line b2 -> single_line b3 ->
  single_line cta ->
  exists ls,
    spec_body_layout opener b1 b2 b3 cta lang = ls ++ [lit "Magnusbane Team"]
    /\ Forall single_line ls.
Proof.
  intros Ho H1 H2 H3 Hc. unfold spec_body_layout.
  eexists. split.
  { change [[]; lit "Best,"; lit "Magnusbane Team"]
      with ([[]; lit "Best,"] ++ [lit "Magnusbane Team"]).
    rewrite !app_assoc. reflexivity. }
  assert (single_line (spec_heading lang)) as Hh.
  { unfold spec_heading. destruct (startswith _ _);
      [apply single_line_heading_ro|apply single_line_lit_heading_en]. }
  assert (forall b, single_line b -> single_line (lit "- " ++ b)) as Hd.
  { intros b Hb. apply single_line_app; [repeat constructor|done]. }
  assert (single_line []) as Hnil by constructor.
  assert (single_line (lit "Best,")) as Hbest by repeat constructor.
  repeat apply Forall_app_2.
  - by constructor.
  - destruct (filter _ _) as [|x shown] eqn:E; [constructor|].
    constructor; [done|]. constructor; [done|].
    rewrite <- E. apply Forall_map, Forall_forall. intros b Hb.
    apply list_elem_of_filter in Hb as [_ Hb]. apply Hd.
    repeat (apply elem_of_cons in Hb as [->|Hb]; [done|]).
    by apply elem_of_nil in Hb.
  - destruct cta; [constructor|]. constructor; [done|]. constructor; [done|constructor].
  - constructor; [done|]. constructor; [done|constructor].
Qed.

Lemma tidy_get d k : map_Forall (fun _ v => tidy v) d -> single_line (get d k).
Proof.
  intros H. unfold get. destruct (d !! k) as [v|] eqn:E; cbn; [|constructor].
  by destruct (H k v E).
Qed.

(** X8: the body composed from a parsed message splits back into exactly
    the lines it was laid out from: no field of a parsed message can
    break a line of the body or add one. *)
Theorem body_of_parsed_splits_back (text : list N) parsed company niche lang :
  parse_output text = Ok parsed ->
  splitlines (build_email_body company niche parsed lang)
  = spec_body_layout (get parsed "opener") (get parsed "bullet1")
      (get parsed "bullet2") (get parsed "bullet3") (get parsed "cta") lang.
Proof.
  intros Hp. unfold build_email_body. rewrite body_lines_layout.
  pose proof (parse_output_trimmed _ _ Hp) as Ht.
  pose proof (parse_output_tidy _ _ Hp) as Hs.
  rewrite !trimmed_get by done.
  destruct (spec_body_layout_lines (get parsed "opener") (get parsed "bullet1")
              (get parsed "bullet2") (get parsed "bullet3") (get parsed "cta") lang)
    as (ls & -> & Hls); try by apply tidy_get.
  apply splitlines_join; [done|by repeat constructor|done].
Qed.

Lemma body_of_parsed_splits_back_witness :
  splitlines (build_email_body (lit "Acme Roasters") (lit "coffee shop") acme_parsed
                (lit "English"))
  = [ lit "Noticed your weekend rush at the counter."; [];
      lit "What we can deliver in 1 week:";
      lit "- Auto-confirm online orders";
      lit "- Daily sales summary email";
      lit "- Low-stock alerts"; [];
      lit "Got 15 min this week?"; [];
      lit "Best,"; lit "Magnusbane Team" ].
Proof.
  rewrite (body_of_parsed_splits_back acme_response acme_parsed _ _ _ parse_acme).
  vm_compute. reflexivity.
Defined.

End ComposerMore.

(** ** Rows, requests and runs *)

Section RowFacts.

Variables (args : Args) (client : Client).

Implicit Types (row : gmap string (option (list N))) (st : state)
  (parsed : gmap string (list N)) (u : Usage) (l v : list N).

Lemma lstrip_head l : lstrip l = [] \/ exists c r, lstrip l = c :: r /\ is_space c = false.
Proof.
  induction l as [|c l IH]; [by left|]. cbn [lstrip].
  destruct (is_space c) eqn:E; [done|]. right. by exists c, l.
Qed.

Lemma strip_nil_iff l : strip l = [] <-> forallb is_space l = true.
Proof.
  split.
  - unfold strip, rstrip. intros H.
    assert (lstrip (rev (lstrip l)) = []) as H1.
    { apply (f_equal (@rev N)) in H. by rewrite rev_involutive in H. }
    apply lstrip_nil_all_space in H1. rewrite forallb_rev in H1.
    destruct (lstrip_head l) as [E|(c & r & E & Hc)].
    + by apply lstrip_nil_all_space.
    + rewrite E in H1. cbn in H1. by rewrite Hc in H1.
  - intros H. unfold strip. by rewrite lstrip_all_space.
Qed.

Lemma truthy_strip l : truthy (strip l) = negb (forallb is_space l).
Proof.
  destruct (forallb is_space l) eqn:E.
  - apply strip_nil_iff in E. by rewrite E.
  - destruct (strip l) eqn:S; [|done].
    apply strip_nil_iff in S. congruence.
Qed.

Lemma row_field_cases row k :
  (exists v, row !! k = Some (Some v) /\ row_field row k = strip v)
  \/ (row_get row k = None /\ row_field row k = []).
Proof.
  unfold row_field, row_get. destruct (row !! k) as [[v|]|] eqn:E.
  - left. exists v. split; [done|]. cbn. unfold str_or. by destruct v.
  - by right.
  - by right.
Qed.

Lemma truthy_row_field row k :
  truthy (row_field row k) = true
  <-> exists v, row !! k = Some (Some v) /\ forallb is_space v = false.
Proof.
  destruct (row_field_cases row k) as [(v & E & ->)|[E ->]].
  - rewrite truthy_strip, negb_true_iff. split.
    + intros H. by exists v.
    + intros (v' & E' & H). congruence.
  - split; [done|]. intros (v & E' & _). unfold row_get in E. by rewrite E' in E.
Qed.

(** X9: a row is processed exactly when its company and its niche are
    both present with a character that is not white space; a row where
    one of them is missing from the header, cut off, empty or blank is
    skipped. *)
Theorem valid_row_iff row :
  valid_row row = true
  <-> exists c n,
        row !! "company_name" = Some (Some c) /\ row !! "niche" = Some (Some n)
        /\ forallb is_space c = false /\ forallb is_space n = false.
Proof.
  unfold valid_row. rewrite andb_true_iff, !truthy_row_field. split.
  - intros [(c & ? & ?) (n & ? & ?)]. by exists c, n.
  - intros (c & n & ? & ? & ? & ?). split; [by exists c|by exists n].
Qed.

Lemma str_or_nil (x d : list N) : str_or x d = [] -> d = [].
Proof. unfold str_or. by destruct x. Qed.

(** X10: a row whose language cell holds a character that is not white
    space is generated in that language, trimmed, whatever the default;
    and the language of a row is empty only when the default language is
    empty. *)
Theorem effective_lang_cases row :
  (forall v, row !! "lang" = Some (Some v) -> forallb is_space v = false ->
             effective_lang args row = strip v)
  /\ (effective_lang args row = [] -> default_lang args = []).
Proof.
  split.
  - intros v E H. unfold effective_lang, row_get. rewrite E. cbn [opt_or].
    assert (v <> []) as Hv by (intros ->; discriminate H).
    assert (str_or v (default_lang args) = v) as -> by (unfold str_or; by destruct v).
    unfold str_or. by rewrite truthy_strip, H.
  - apply str_or_nil.
Qed.


(** X11: a reply without any choice, or whose first choice has no
    content, ends the run at that row with [IndexError] or
    [AttributeError]: the request has been sent, no record is written
    for the row and the running totals are as before. *)
Theorem malformed_reply_aborts row st resp :
  valid_row row = true ->
  client (calls_made (trace st)) (row_request args row) = Ok resp ->
  (choices resp = [] -> 
   loop_body args client row st
   = (Raise IndexError,
      MkState (total st)
        (trace st ++ [ECall (calls_made (trace st)) (row_request args row)])))
  /\ (forall rest, choices resp = MkChoice None :: rest ->
      loop_body args client row st
      = (Raise AttributeError,
         MkState (total st)
           (trace st ++ [ECall (calls_made (trace st)) (row_request args row)]))).
Proof.
  intros Hv Hc. unfold row_request in *. split.
  - intros Hch. eapply loop_body_raise; [done|].
    rewrite call_model_eq, Hc, bind_Ok. unfold read_response, index.
    by rewrite Hch.
  - intros rest Hch. eapply loop_body_raise; [done|].
    rewrite call_model_eq, Hc, bind_Ok. unfold read_response, index.
    by rewrite Hch.
Qed.

Lemma record_cells_eq row (text : list N) parsed u cost :
  parse_output text = Ok parsed ->
  record_cells args row parsed u cost
  = [ CStr (row_field row "company_name"); CStr (row_field row "niche");
      CStr (row_field row "website"); CStr (effective_lang args row);
      CStr (get parsed "subject"); CStr (get parsed "opener");
      CStr (get parsed "bullet1"); CStr (get parsed "bullet2");
      CStr (get parsed "bullet3"); CStr (get parsed "cta");
      CStr (build_email_body (row_field row "company_name") (row_field row "niche")
              parsed (effective_lang args row));
      CInt (prompt_tokens u); CInt (completion_tokens u); CInt (total_tokens u);
      CStr (format_6f cost) ].
Proof.
  intros Hp. destruct (parse_output_ok text) as (d & Hd & Hdom).
  rewrite Hp in Hd. injection Hd as <-.
  assert (forall (k : string) (d0 : gmap string cell), k ∈ six_fields ->
            ((CStr <$> parsed) ∪ d0) !! k = Some (CStr (get parsed k))) as Hin.
  { intros k d0 Hk. rewrite <- Hdom in Hk. apply elem_of_dom in Hk as [v Hv].
    erewrite lookup_union_Some_l; [reflexivity|].
    rewrite lookup_fmap, Hv. unfold get. by rewrite Hv. }
  assert (forall (k : string) (d0 : gmap string cell), k ∉ six_fields ->
            ((CStr <$> parsed) ∪ d0) !! k = d0 !! k) as Hout.
  { intros k d0 Hk. apply lookup_union_r. rewrite lookup_fmap.
    apply fmap_None, not_elem_of_dom. by rewrite Hdom. }
  unfold record_cells, output_record, fieldnames. cbn [map]. map_lookup.
  rewrite (Hin "subject"), (Hin "opener"), (Hin "bullet1"), (Hin "bullet2"),
    (Hin "bullet3"), (Hin "cta") by (unfold six_fields; set_solver).
  rewrite (Hout "company_name"), (Hout "niche"), (Hout "website"), (Hout "lang")
    by (unfold six_fields; set_solver).
  map_lookup. reflexivity.
Qed.

(** X12: the record of a processed row holds, in the order of the header:
    the company, the niche, the web site and the language as the loop
    trimmed them, the six fields of the parsed message, the body, the
    three counts and the rendered cost.  No field of the message replaces
    an input column. *)
Theorem record_columns row (text : list N) parsed u cost :
  parse_output text = Ok parsed ->
  record_cells args row parsed u cost
  = [ CStr (row_field row "company_name"); CStr (row_field row "niche");
      CStr (row_field row "website"); CStr (effective_lang args row);
      CStr (get parsed "subject"); CStr (get parsed "opener");
      CStr (get parsed "bullet1"); CStr (get parsed "bullet2");
      CStr (get parsed "bullet3"); CStr (get parsed "cta");
      CStr (build_email_body (row_field row "company_name") (row_field row "niche")
              parsed (effective_lang args row));
      CInt (prompt_tokens u); CInt (completion_tokens u); CInt (total_tokens u);
      CStr (format_6f cost) ].
Proof. apply record_cells_eq. Qed.

Lemma parse_blank v :
  forallb is_space v = true ->
  parse_output (strip v)
  = Ok (<["bullet3" := []]> (<["bullet2" := []]> (<["bullet1" := []]> out_init))).
Proof. intros H. apply strip_nil_iff in H. rewrite H. reflexivity. Qed.

(** X13: a reply whose content is empty or blank and which carries no
    usage still gives the row its record, when the trimmed cells of the
    row and its language can be encoded and the pause is taken: the six
    fields are empty, the body is the closing alone, the counts are zero
    and the cost reads "0.000000"; the running totals stay as they are
    and the loop goes on after the pause. *)
Theorem blank_reply_record row st resp c rest :
  valid_row row = true ->
  client (calls_made (trace st)) (row_request args row) = Ok resp ->
  choices resp = MkChoice (Some c) :: rest -> usage resp = None ->
  forallb is_space c = true ->
  encodable (row_field row "company_name") = true ->
  encodable (row_field row "niche") = true ->
  encodable (row_field row "website") = true ->
  encodable (effective_lang args row) = true ->
  pause_accepted (Z.max (delay_ms args) 0) = true ->
  loop_body args client row st
  = (Ok tt,
     MkState (total st)
       (trace st
        ++ [ ECall (calls_made (trace st)) (row_request args row);
             EWriteRow
               [ CStr (row_field row "company_name"); CStr (row_field row "niche");
                 CStr (row_field row "website"); CStr (effective_lang args row);
                 CStr []; CStr []; CStr []; CStr []; CStr []; CStr [];
                 CStr closing_only; CInt 0; CInt 0; CInt 0; CStr (lit "0.000000") ];
             ESleep (Z.max (delay_ms args) 0) ])).
Proof.
  intros Hv Hc Hch Hu Hblank E1 E2 E3 E4 Hpause.
  assert (read_response resp = Ok ([], MkUsage 0 0 0)) as Hr.
  { unfold read_response, index. rewrite Hch, Hu. cbn.
    apply strip_nil_iff in Hblank. by rewrite Hblank. }
  pose (parsed := <["bullet3" := []]> (<["bullet2" := []]> (<["bullet1" := []]> out_init))
                  : gmap string (list N)).
  assert (parse_output [] = Ok parsed) as Hp by reflexivity.
  assert (record_cells args row parsed (MkUsage 0 0 0) (S754_zero false)
          = [ CStr (row_field row "company_name"); CStr (row_field row "niche");
              CStr (row_field row "website"); CStr (effective_lang args row);
              CStr []; CStr []; CStr []; CStr []; CStr []; CStr [];
              CStr closing_only; CInt 0; CInt 0; CInt 0; CStr (lit "0.000000") ])
    as Hcells.
  { rewrite (record_cells_eq row [] parsed _ _ Hp). reflexivity. }
  rewrite (loop_body_ok args client row st [] (MkUsage 0 0 0) _ (S754_zero false) parsed
             Hv (call_model_ok client _ _ _ _ st resp _ _ Hc Hr) eq_refl Hp).
  - rewrite add_usage_zero. unfold row_events. by rewrite Hcells.
  - rewrite Hcells. cbn [forallb cell_encodable]. rewrite E1, E2, E3, E4.
    reflexivity.
  - exact Hpause.
Qed.






Lemma calls_made_requests tr : calls_made tr = length (requests tr).
Proof.
  unfold calls_made, requests. induction tr as [|e tr IH]; [done|].
  destruct e; cbn [omap list_omap]; rewrite ?filter_cons_True by done;
    rewrite ?filter_cons_False by done; cbn [length]; by rewrite ?IH.
Qed.

Lemma requests_app tr1 tr2 : requests (tr1 ++ tr2) = requests tr1 ++ requests tr2.
Proof. apply omap_app. Qed.

Lemma sleeps_app tr1 tr2 : sleeps (tr1 ++ tr2) = sleeps tr1 ++ sleeps tr2.
Proof. apply omap_app. Qed.

Lemma for_each_requests rows st st' :
  for_each (loop_body args client) rows st = (Ok tt, st') ->
  requests (trace st')
  = requests (trace st)
    ++ imap (fun i row => ((length (requests (trace st)) + i)%nat, row_request args row))
         (filter (fun r => valid_row r = true) rows)
  /\ sleeps (trace st')
     = sleeps (trace st)
       ++ replicate (length (filter (fun r => valid_row r = true) rows))
            (Z.max (delay_ms args) 0).
Proof.
  revert st. induction rows as [|row rows IH]; intros st H.
  - cbn in H. injection H as <-. cbn. by rewrite !app_nil_r.
  - cbn [for_each] in H. unfold mbind, M_bind in H.
    destruct (loop_body args client row st) as [[[]|e] st1] eqn:E; [|done].
    destruct (IH _ H) as [Hr Hs]. rewrite Hr, Hs.
    apply loop_body_inv in E as [[Hv ->]|[Hv (parsed & u & cost & ->)]];
      cbn [trace total].
    + rewrite filter_cons_False by (by rewrite Hv).
      rewrite requests_app, sleeps_app.
      change (requests [EPrint (PSkipping row)]) with (@nil (nat * Request)).
      change (sleeps [EPrint (PSkipping row)]) with (@nil Z).
      by rewrite !app_nil_r.
    + rewrite filter_cons_True by done.
      rewrite requests_app, sleeps_app, calls_made_requests.
      cbn [row_events requests sleeps omap list_omap length replicate imap].
      rewrite <- !app_assoc, length_app. cbn [app length].
      split; [|done]. do 2 f_equal.
      * unfold row_request. do 2 f_equal. lia.
      * apply imap_ext. intros i x _. cbn. f_equal. lia.
Qed.

(** X16: a run that completes has sent one request per processed row and
    none for a skipped one, in the order of the input, numbered from
    zero, each built from the trimmed cells of its row and its language;
    and it has paused once per processed row, for [--delay-ms]
    milliseconds, or not at all when that is negative. *)
Theorem one_request_per_processed_row (w : World) st' :
  main w args client state0 = (Ok tt, st') ->
  exists rows,
    input_rows w (infile args) = Some rows
    /\ requests (trace st')
       = imap (fun i row => (i, row_request args row))
           (filter (fun r => valid_row r = true) rows)
    /\ sleeps (trace st')
       = replicate (length (filter (fun r => valid_row r = true) rows))
           (Z.max (delay_ms args) 0).
Proof.
  intros H.
  destruct (main_ok _ _ _ _ _ H) as (rows & outpath & st1 & grand & _ & Hin & E & _ & ->).
  exists rows. split; [done|].
  apply for_each_requests in E as [Hr Hs]. cbn [trace state0 app] in Hr, Hs |- *.
  rewrite requests_app, sleeps_app, Hr, Hs. cbn. by rewrite !app_nil_r.
Qed.



Lemma encodable_Forall (l : list N) :
  encodable l = true <-> Forall (fun c => is_surrogate c = false) l.
Proof.
  unfold encodable. induction l as [|c l IH]; cbn [forallb].
  - split; [constructor|done].
  - rewrite Forall_cons, andb_true_iff, negb_true_iff, IH. done.
Qed.

Lemma splitlines_from_Forall (P : N -> Prop) (t cur : list N) :
  Forall P t -> Forall P cur -> Forall (Forall P) (splitlines_from cur t).
Proof.
  remember (length t) as n eqn:Hn. revert t cur Hn.
  induction n as [n IH] using lt_wf_ind. intros t cur Hn Ht Hcur.
  destruct t as [|c t]; cbn [splitlines_from].
  - destruct cur; [constructor|constructor; [done|constructor]].
  - cbn [length] in Hn. apply Forall_cons in Ht as [Hc Ht].
    destruct (c =? 13) eqn:E13.
    + destruct t as [|c2 t]; [constructor; [done|constructor]|].
      cbn [length] in Hn. apply Forall_cons in Ht as [Hc2 Ht].
      destruct (c2 =? 10); constructor; try done.
      * eapply IH; [|reflexivity|done|constructor]. lia.
      * eapply IH; [|reflexivity| |constructor]; [cbn [length]; lia|].
        by constructor.
    + destruct (is_linebreak c) eqn:Eb.
      * constructor; [done|]. eapply IH; [|reflexivity|done|constructor]. lia.
      * eapply IH; [|reflexivity|done|]; [lia|].
        apply Forall_app_2; [done|]. by constructor.
Qed.

Lemma value_after_colon_Forall (P : N -> Prop) (l v : list N) :
  Forall P l -> value_after_colon l = Ok v -> Forall P v.
Proof.
  intros Hl. unfold value_after_colon, index.
  destruct (split_colon_1 l !! 1%nat) as [b|] eqn:E; [|done].
  rewrite bind_Ok. intros [= <-]. apply strip_Forall.
  pose proof (split_colon_1_Forall P l Hl) as H.
  eapply Forall_lookup_1 in H; eauto.
Qed.

Lemma step_Forall (P : N -> Prop) (s1 : pstate) (l : list N) (s2 : pstate) :
  Forall P l ->
  map_Forall (fun _ v => Forall P v) (out s1) /\ Forall (Forall P) (bullets s1) ->
  step s1 l = Ok s2 ->
  map_Forall (fun _ v => Forall P v) (out s2) /\ Forall (Forall P) (bullets s2).
Proof.
  intros Hl [Ho Hb] E. unfold step in E.
  repeat match type of E with
         | context [if ?c then _ else _] => destruct c eqn:?
         end;
  repeat match type of E with
         | context [value_after_colon ?l] =>
             let V := fresh "V" in destruct (value_after_colon l) eqn:V
         end;
  cbn in E; try discriminate E; injection E as <-; cbn [out bullets];
  try (split; [|done]; apply map_Forall_insert_2; [|done];
       by eapply value_after_colon_Forall);
  try done.
  split; [done|]. apply Forall_app_2; [done|].
  constructor; [|constructor]. apply strip_Forall. by apply Forall_drop.
Qed.

(** The fields of a parsed message are made of characters of the text. *)
Lemma parse_output_Forall (P : N -> Prop) (text : list N) (d : gmap string (list N)) :
  Forall P text -> parse_output text = Ok d -> map_Forall (fun _ v => Forall P v) d.
Proof.
  intros Ht. unfold parse_output. rewrite parse_lines_eq.
  destruct (scan init (clean_lines text)) as [s|] eqn:E; [|done].
  rewrite bind_Ok. intros [= <-].
  assert (map_Forall (fun _ v => Forall P v) (out s) /\ Forall (Forall P) (bullets s))
    as [Ho Hb].
  { eapply (scan_invariant
              (fun s => map_Forall (fun _ v => Forall P v) (out s)
                        /\ Forall (Forall P) (bullets s))
              (Forall P)); [| |split|exact E].
    - intros s1 l s2 Hl H1 H2. eapply step_Forall; eauto.
    - unfold clean_lines, clean. apply Forall_forall. intros l Hl.
      apply list_elem_of_In, in_map_iff in Hl as (raw & <- & Hraw).
      apply strip_Forall. apply list_elem_of_In, list_elem_of_filter in Hraw as [_ Hraw].
      pose proof (splitlines_from_Forall P text [] Ht ltac:(constructor)) as Hs.
      rewrite Forall_forall in Hs. by apply Hs.
    - unfold init, out_init. cbn [out].
      repeat (apply map_Forall_insert_2; [constructor|]).
      apply map_Forall_empty.
    - constructor. }
  assert (forall i, Forall P (slot (bullets s) i)) as Hslot.
  { intros i. unfold slot. destruct (bullets s !! i) as [b|] eqn:Eb; cbn.
    - eapply Forall_lookup_1 in Hb; eauto.
    - constructor. }
  repeat (apply map_Forall_insert_2; [apply Hslot|]). done.
Qed.

Lemma join_Forall (P : N -> Prop) (sep : list N) (ls : list (list N)) :
  Forall P sep -> Forall (Forall P) ls -> Forall P (join sep ls).
Proof.
  intros Hsep. induction 1 as [|a ls Ha Hls IH]; [constructor|].
  destruct ls as [|b ls]; [done|].
  rewrite join_cons by done. by repeat apply Forall_app_2.
Qed.

Lemma get_Forall (P : N -> Prop) (d : gmap string (list N)) k :
  map_Forall (fun _ v => Forall P v) d -> Forall P (get d k).
Proof.
  intros H. unfold get. destruct (d !! k) as [v|] eqn:E; cbn; [|constructor].
  exact (H k v E).
Qed.

Lemma spec_body_layout_encodable (opener b1 b2 b3 cta lang : list N) :
  encodable opener = true -> encodable b1 = true -> encodable b2 = true ->
  encodable b3 = true -> encodable cta = true ->
  Forall (fun l => encodable l = true) (spec_body_layout opener b1 b2 b3 cta lang).
Proof.
  intros Ho H1 H2 H3 Hc. unfold spec_body_layout.
  assert (encodable (spec_heading lang) = true) as Hh.
  { unfold spec_heading. by destruct (startswith _ _). }
  assert (forall b, encodable b = true -> encodable (lit "- " ++ b) = true) as Hd.
  { intros b Hb. unfold encodable. rewrite forallb_app. by apply andb_true_intro. }
  repeat apply Forall_app_2.
  - by constructor.
  - destruct (filter _ _) as [|x shown] eqn:E; [constructor|].
    constructor; [done|]. constructor; [done|].
    rewrite <- E. apply Forall_map, Forall_forall. intros b Hb.
    apply list_elem_of_filter in Hb as [_ Hb]. apply Hd.
    repeat (apply elem_of_cons in Hb as [->|Hb]; [done|]).
    by apply elem_of_nil in Hb.
  - destruct cta; [constructor|]. constructor; [done|]. constructor; [done|constructor].
  - by repeat constructor.
Qed.

Lemma build_email_body_encodable (company niche lang : list N)
    (parsed : gmap string (list N)) :
  map_Forall (fun _ v => Forall (fun c => is_surrogate c = false) v) parsed ->
  encodable (build_email_body company niche parsed lang) = true.
Proof.
  intros H. unfold build_email_body. rewrite body_lines_layout.
  apply encodable_Forall, join_Forall; [by repeat constructor|].
  eapply Forall_impl; [|intros l Hl; apply encodable_Forall; exact Hl].
  apply spec_body_layout_encodable;
    apply encodable_Forall, strip_Forall, get_Forall, H.
Qed.

Lemma format_6f_encodable (x : spec_float) :
  is_finite x -> encodable (format_6f x) = true.
Proof.
  intros Hx. destruct (format_6f_shape x Hx)
    as (sign & whole & frac & -> & Hs & _ & Hw & _ & Hf).
  assert (forall l, Forall is_digit l -> encodable l = true) as Hd.
  { intros l Hl. apply encodable_Forall. eapply Forall_impl; [exact Hl|].
    intros c [Hc1 Hc2]. unfold is_surrogate.
    apply andb_false_iff. left. apply N.leb_gt. lia. }
  unfold encodable. rewrite !forallb_app.
  fold (encodable sign) (encodable whole) (encodable frac).
  rewrite (Hd whole Hw), (Hd frac Hf). by destruct Hs as [-> | ->].
Qed.

Lemma row_field_encodable row k :
  row_encodable row -> encodable (row_field row k) = true.
Proof.
  intros H. destruct (row_field_cases row k) as [(v & E & ->)|[_ ->]]; [|done].
  apply encodable_Forall, strip_Forall, encodable_Forall. by apply (H k).
Qed.

Lemma effective_lang_encodable row :
  row_encodable row -> encodable (default_lang args) = true ->
  encodable (effective_lang args row) = true.
Proof.
  intros H Hd. unfold effective_lang.
  assert (encodable (opt_or (row_get row "lang") (default_lang args)) = true) as Ho.
  { unfold row_get. destruct (row !! "lang") as [[v|]|] eqn:E; cbn [opt_or]; try done.
    unfold str_or. destruct (truthy v); [by apply (H "lang")|done]. }
  unfold str_or. destruct (truthy _); [|done].
  by apply encodable_Forall, strip_Forall, encodable_Forall.
Qed.

Lemma record_cells_encodable row (text : list N) parsed u cost :
  row_encodable row -> encodable (default_lang args) = true ->
  encodable text = true ->
  parse_output text = Ok parsed -> est_cost u = Ok cost ->
  forallb cell_encodable (record_cells args row parsed u cost) = true.
Proof.
  intros Hrow Hd Ht Hp He.
  pose proof (parse_output_Forall _ text parsed (proj1 (encodable_Forall text) Ht) Hp)
    as Hf.
  rewrite (record_cells_eq row text parsed u cost Hp).
  cbn [forallb cell_encodable].
  rewrite !(row_field_encodable row _ Hrow), (effective_lang_encodable row Hrow Hd).
  rewrite !(proj2 (encodable_Forall _) (get_Forall _ parsed _ Hf)).
  rewrite (build_email_body_encodable _ _ _ parsed Hf).
  by rewrite (format_6f_encodable cost (est_cost_finite u cost He)).
Qed.

(** X18: a surrogate can reach the output file only from the input:
    when the cells of the row, the default language and the text of the
    reply can be encoded, every text of the record can be. *)
Theorem record_encodable_from_inputs row (text : list N) parsed u cost :
  row_encodable row -> encodable (default_lang args) = true ->
  encodable text = true ->
  parse_output text = Ok parsed -> est_cost u = Ok cost ->
  forallb cell_encodable (record_cells args row parsed u cost) = true.
Proof. apply record_cells_encodable. Qed.

(** X19: a record that holds a text UTF-8 cannot encode is not written:
    the write raises, which ends the run at that row after the request
    was sent and the totals were updated. *)
Theorem unencodable_record_aborts row st (text : list N) u st1 cost parsed :
  valid_row row = true ->
  call_model client (row_field row "company_name") (row_field row "niche")
    (row_field row "website") (effective_lang args row) st = (Ok (text, u), st1) ->
  est_cost u = Ok cost -> parse_output text = Ok parsed ->
  forallb cell_encodable (record_cells args row parsed u cost) = false ->
  loop_body args client row st
  = (Raise UnicodeEncodeError,
     MkState (add_usage (total st) u)
       (trace st ++ [ECall (calls_made (trace st)) (row_request args row)])).
Proof.
  intros Hv Hcall He Hp Henc.
  destruct (loop_body_cases args client row st text u st1 Hv Hcall)
    as (parsed' & Hp' & ->).
  rewrite Hp in Hp'. injection Hp' as <-. by rewrite He, Henc.
Qed.

(** X20: a pause that [time.sleep] does not take ends the run with
    [OverflowError] once the record of the row has been written; a delay
    that is zero or negative is always taken. *)
Theorem refused_pause_aborts row st (text : list N) u st1 cost parsed :
  (valid_row row = true ->
   call_model client (row_field row "company_name") (row_field row "niche")
     (row_field row "website") (effective_lang args row) st = (Ok (text, u), st1) ->
   est_cost u = Ok cost -> parse_output text = Ok parsed ->
   forallb cell_encodable (record_cells args row parsed u cost) = true ->
   pause_accepted (Z.max (delay_ms args) 0) = false ->
   loop_body args client row st
   = (Raise OverflowError,
      MkState (add_usage (total st) u)
        (trace st ++ [ECall (calls_made (trace st)) (row_request args row);
                      EWriteRow (record_cells args row parsed u cost)])))
  /\ ((delay_ms args <= 0)%Z -> pause_accepted (Z.max (delay_ms args) 0) = true).
Proof.
  split.
  - intros Hv Hcall He Hp Henc Hpause.
    destruct (loop_body_cases args client row st text u st1 Hv Hcall)
      as (parsed' & Hp' & ->).
    rewrite Hp in Hp'. injection Hp' as <-. by rewrite He, Henc, Hpause.
  - intros Hd. by rewrite Z.max_r.
Qed.





End RowFacts.

Lemma valid_row_iff_witness :
  valid_row acme_row = true /\ valid_row blank_row = false.
Proof.
  split.
  - apply valid_row_iff. exists (lit "Acme Roasters"), (lit "coffee shop").
    repeat split; reflexivity.
  - apply not_true_iff_false. intros H.
    apply valid_row_iff in H as (c & n & Hc & _ & Hs & _).
    vm_compute in Hc. injection Hc as <-. vm_compute in Hs. discriminate Hs.
Defined.

Lemma effective_lang_cases_witness :
  effective_lang sample_args (<["lang" := Some (lit " ro ")]> acme_row) = lit "ro".
Proof.
  rewrite (proj1 (effective_lang_cases sample_args _) (lit " ro ")); reflexivity.
Defined.

Lemma malformed_reply_aborts_witness :
  loop_body sample_args (fun _ _ => Ok (MkResponse [] None)) acme_row state0
  = (Raise IndexError,
     MkState (MkUsage 0 0 0) [ECall 0 (row_request sample_args acme_row)]).
Proof.
  apply (proj1 (malformed_reply_aborts sample_args (fun _ _ => Ok (MkResponse [] None))
                  acme_row state0 (MkResponse [] None) eq_refl eq_refl)).
  reflexivity.
Defined.

Lemma record_columns_witness :
  record_cells sample_args acme_row acme_parsed (MkUsage 120 80 200) three_quarters
    !! 4%nat
  = Some (CStr (lit "Faster Orders For Acme")).
Proof.
  rewrite (record_columns sample_args acme_row acme_response acme_parsed _ _ parse_acme).
  reflexivity.
Defined.

(** A service whose replies are blank and carry no usage. *)
Lemma blank_reply_record_witness :
  exists cells,
    loop_body sample_args (fun _ _ => Ok (MkResponse [MkChoice (Some (lit "  "))] None))
      acme_row state0
    = (Ok tt, MkState (MkUsage 0 0 0)
                [ECall 0 (row_request sample_args acme_row); EWriteRow cells; ESleep 600])
    /\ cells !! 10%nat = Some (CStr closing_only).
Proof.
  eexists. split.
  - apply (blank_reply_record sample_args
             (fun _ _ => Ok (MkResponse [MkChoice (Some (lit "  "))] None))
             acme_row state0 (MkResponse [MkChoice (Some (lit "  "))] None)
             (lit "  ") []); reflexivity.
  - reflexivity.
Defined.



Lemma one_request_per_processed_row_witness :
  exists st',
    main sample_world sample_args acme_client state0 = (Ok tt, st')
    /\ requests (trace st')
       = [(0%nat, row_request sample_args acme_row);
          (1%nat, row_request sample_args acme_row)]
    /\ sleeps (trace st') = [600%Z; 600%Z].
Proof.
  pose (st' := snd (main sample_world sample_args acme_client state0)).
  assert (main sample_world sample_args acme_client state0 = (Ok tt, st')) as H
    by (vm_compute; reflexivity).
  destruct (one_request_per_processed_row sample_args acme_client sample_world st' H)
    as (rows & Hin & Hr & Hs).
  assert (rows = [acme_row; blank_row; acme_row]) as ->.
  { assert (Some rows = Some [acme_row; blank_row; acme_row]) as E
      by (rewrite <- Hin; reflexivity).
    by injection E. }
  exists st'. split; [exact H|]. split; [exact Hr|exact Hs].
Defined.


Lemma acme_row_encodable : row_encodable acme_row.
Proof.
  intros k v Hk. unfold acme_row in Hk.
  repeat (apply lookup_insert_Some in Hk as [[_ Hk]|[_ Hk]]; [by injection Hk as <-|]).
  by rewrite lookup_empty in Hk.
Qed.



Lemma record_encodable_from_inputs_witness :
  forallb cell_encodable
    (record_cells sample_args acme_row acme_parsed (MkUsage 1000000 1000000 0)
       three_quarters)
  = true.
Proof.
  apply (record_encodable_from_inputs sample_args acme_row acme_response acme_parsed
           (MkUsage 1000000 1000000 0) three_quarters).
  - apply acme_row_encodable.
  - reflexivity.
  - reflexivity.
  - exact parse_acme.
  - vm_compute. reflexivity.
Defined.

(** A service whose reply carries a lone surrogate in its subject. *)
Lemma unencodable_record_aborts_witness :
  loop_body sample_args
    (fun _ _ => Ok (MkResponse [MkChoice (Some (lit "Subject: " ++ [55296]))] None))
    acme_row state0
  = (Raise UnicodeEncodeError,
     MkState (MkUsage 0 0 0) [ECall 0 (row_request sample_args acme_row)]).
Proof.
  apply (unencodable_record_aborts sample_args
           (fun _ _ => Ok (MkResponse [MkChoice (Some (lit "Subject: " ++ [55296]))] None))
           acme_row state0 (lit "Subject: " ++ [55296]) (MkUsage 0 0 0)
           (MkState (MkUsage 0 0 0) [ECall 0 (row_request sample_args acme_row)])
           (S754_zero false)
           (<["bullet3" := []]> (<["bullet2" := []]> (<["bullet1" := []]>
              (<["subject" := [55296]]> out_init)))));
    vm_compute; reflexivity.
Defined.

(** A delay of [10^13] milliseconds: the record is written, the pause is
    refused. *)
Lemma refused_pause_aborts_witness :
  exists cells,
    loop_body (MkArgs (lit "prospects_sample.csv") None (lit "English") (10 ^ 13))
      (fun _ _ => Ok (MkResponse [MkChoice (Some [])] None)) acme_row state0
    = (Raise OverflowError,
       MkState (MkUsage 0 0 0)
         [ECall 0 (row_request sample_args acme_row); EWriteRow cells]).
Proof.
  eexists.
  apply (proj1 (refused_pause_aborts
                  (MkArgs (lit "prospects_sample.csv") None (lit "English") (10 ^ 13))
                  (fun _ _ => Ok (MkResponse [MkChoice (Some [])] None))
                  acme_row state0 [] (MkUsage 0 0 0)
                  (MkState (MkUsage 0 0 0) [ECall 0 (row_request sample_args acme_row)])
                  (S754_zero false)
                  (<["bullet3" := []]> (<["bullet2" := []]> (<["bullet1" := []]>
                     out_init)))));
    vm_compute; reflexivity.
Defined.

(** ** The sign of the cost *)

Section CostSign.

Open Scope Z_scope.

Lemma binary_round_aux_clear m e l :
  0 <= m -> sign_clear (binary_round_aux prec emax false m e l).
Proof.
  intros Hm. pose proof (binary_round_aux_canonical false m e l Hm) as H.
  unfold binary_round_aux in *.
  destruct (shr_fexp prec emax m e l) as [mrs1 e1].
  destruct (shr_fexp prec emax _ e1 loc_Exact) as [mrs2 e2].
  destruct (shr_m mrs2); [done| |done].
  by destruct (e2 <=? emax - prec).
Qed.

Lemma binary_round_clear m e : sign_clear (binary_round prec emax false m e).
Proof.
  unfold binary_round. destruct (shl_align m e _) as [mz ez].
  by apply binary_round_aux_clear.
Qed.

Lemma of_int_clear n x : 0 <= n -> of_int n = Ok x -> sign_clear x.
Proof.
  intros Hn. unfold of_int, nearest, binary_normalize.
  destruct n as [|p|p]; [by intros [= <-]| |lia].
  pose proof (binary_round_clear p 0) as H.
  destruct (binary_round prec emax false p 0); [| |done|]; by intros [= <-].
Qed.

Lemma fmul_clear x y :
  is_finite x -> is_finite y -> sign_clear x -> sign_clear y -> sign_clear (fmul x y).
Proof.
  destruct x as [sx|sx| |sx mx ex], y as [sy|sy| |sy my ey]; cbn; try done;
    intros _ _ -> ->; try done.
  by apply binary_round_aux_clear.
Qed.

Lemma of_int_finite n x : of_int n = Ok x -> is_finite x.
Proof. intros H. apply nearest_within in H. by destruct x. Qed.

Lemma fadd_clear x y :
  sign_clear x -> sign_clear y -> sign_clear (fadd x y).
Proof.
  destruct x as [sx|sx| |sx mx ex], y as [sy|sy| |sy my ey]; cbn; try done;
    intros -> ->; try done.
  apply binary_round_clear.
Qed.

Lemma INPUT_PER_TOKEN_clear : sign_clear INPUT_PER_TOKEN.
Proof. vm_compute. reflexivity. Qed.

Lemma OUTPUT_PER_TOKEN_clear : sign_clear OUTPUT_PER_TOKEN.
Proof. vm_compute. reflexivity. Qed.

Lemma format_6f_unsigned x :
  is_finite x -> sign_clear x -> startswith (lit "-") (format_6f x) = false.
Proof.
  destruct x as [sg| | |sg m e]; try done; intros _ Hs; cbn in Hs; subst sg.
  - reflexivity.
  - cbn [format_6f app].
    destruct (digits_shape (scaled_micro m e / 1000000)%N) as [Hne Hd].
    destruct (digits _) as [|d ds]; [done|].
    inversion Hd as [|? ? Hdig _]; subst. unfold is_digit in Hdig.
    change (lit "-") with [45%N]. cbn [app startswith].
    destruct (45 =? d)%N eqn:E; [|done]. apply N.eqb_eq in E. lia.
Qed.

(** X22: token counts that are not negative never give a negative cost:
    the estimate, when it is computed, is a finite double with its sign
    bit clear, and its rendering carries no minus sign. *)
Theorem est_cost_not_negative (u : Usage) (x : spec_float) :
  0 <= prompt_tokens u -> 0 <= completion_tokens u ->
  est_cost u = Ok x ->
  is_finite x /\ sign_clear x /\ startswith (lit "-") (format_6f x) = false.
Proof.
  intros Hp Hc E. pose proof (est_cost_finite u x E) as Hf.
  assert (sign_clear x) as Hs.
  { unfold est_cost in E.
    destruct (of_int (prompt_tokens u)) as [p|] eqn:Ep; [|done].
    destruct (of_int (completion_tokens u)) as [c|] eqn:Ec; [|done].
    cbn in E. injection E as <-.
    apply fadd_clear; apply fmul_clear.
    - exact (of_int_finite _ _ Ep).
    - vm_compute. exact I.
    - exact (of_int_clear _ _ Hp Ep).
    - exact INPUT_PER_TOKEN_clear.
    - exact (of_int_finite _ _ Ec).
    - vm_compute. exact I.
    - exact (of_int_clear _ _ Hc Ec).
    - exact OUTPUT_PER_TOKEN_clear. }
  split; [done|]. split; [done|]. by apply format_6f_unsigned.
Qed.

End CostSign.

Lemma est_cost_not_negative_witness :
  exists x,
    est_cost (MkUsage 120 80 200) = Ok x
    /\ startswith (lit "-") (format_6f x) = false.
Proof.
  destruct (est_cost (MkUsage 120 80 200)) as [x|] eqn:E;
    [|vm_compute in E; discriminate E].
  exists x. split; [reflexivity|].
  apply (est_cost_not_negative (MkUsage 120 80 200) x); [cbn; lia|cbn; lia|exact E].
Defined.

(** ** A run that fails *)

Section FailedRun.

Variables (args : Args) (client : Client).

Implicit Types (row : gmap string (option (list N))) (st : state).



End FailedRun.

